(** * VAST request validator: a shallow embedding of [main.py]

    The development models [VastRequestValidator] of
    google-marketing-solutions/vast-validator: the parameter registry built by
    [__init__], [validate_url], the nested [validate_param] and
    [validate_vast_request], together with the error/warning split done by
    [main].  The Python library functions the validator calls ([int],
    [re.finditer], [re.match], [urllib.parse.unquote],
    [urllib.parse.urlparse]) are modelled in [Module Py] after CPython 3.12. *)

From Stdlib Require Import NArith ZArith Ascii String List Bool Lia.
From stdpp Require Import base option list gmap.

Local Open Scope N_scope.

(** ** Python values *)

Module Py.

(** A Python [str] is a sequence of Unicode code points. *)
Definition str : Type := list N.

(** [bytes] objects are sequences of integers below 256. *)
Definition bytes : Type := list N.

(** Literals of the source are written as Rocq strings and read through
    [lit]; every literal of [main.py] is ASCII. *)
Definition lit (s : string) : str :=
  List.map N_of_ascii (list_ascii_of_string s).

(** [sep.join(parts)] *)
Fixpoint join (sep : str) (parts : list str) : str :=
  match parts with
  | [] => []
  | [p] => p
  | p :: rest => p ++ sep ++ join sep rest
  end.

(** [x in seq] for a sequence of strings. *)
Definition str_in (x : str) (seq : list str) : bool :=
  bool_decide (x ∈ seq).

(** The part of the interpreter the source does not fix: the Unicode
    character database of the running CPython (consulted for code points
    from 128 on only; the ASCII range is written out below), the
    [sys.get_int_max_str_digits()] setting, and the two checks of
    [urllib.parse.urlsplit] that rest on [ipaddress] and [unicodedata]. *)
Record Env : Type := {
  (** [Py_UNICODE_TODECIMAL]: the value of a decimal digit (category Nd). *)
  unicode_todecimal : N -> option (fin 10);
  (** [Py_UNICODE_ISSPACE] *)
  unicode_isspace : N -> bool;
  (** [sys.get_int_max_str_digits()]; 0 switches the limit off. *)
  int_max_str_digits : N;
  (** [_check_bracketed_host] returns without raising. *)
  bracketed_host_ok : str -> bool;
  (** [_checknetloc] returns without raising on a non-ASCII netloc. *)
  nfkc_netloc_ok : str -> bool
}.

(** CPython's defaults, with no decimal digit or white space known
    beyond ASCII: the smallest database. *)
Definition ascii_env : Env := {|
  unicode_todecimal := fun _ => None;
  unicode_isspace := fun _ => false;
  int_max_str_digits := 4300;
  bracketed_host_ok := fun _ => false;
  nfkc_netloc_ok := fun _ => true
|}.

(** A database that also knows the Arabic-Indic digits U+0660..U+0669 and
    the no-break space U+00A0, as every Unicode version does.  The value of
    the digit [c] is [c - 1632], taken modulo 10 to land in [fin 10]. *)
Definition sample_env : Env := {|
  unicode_todecimal := fun c =>
    if (1632 <=? c) && (c <=? 1641)
    then Some (nat_to_fin (Nat.mod_upper_bound (N.to_nat (c - 1632)) 10 ltac:(discriminate)))
    else None;
  unicode_isspace := fun c => c =? 160;
  int_max_str_digits := 4300;
  bracketed_host_ok := fun _ => false;
  nfkc_netloc_ok := fun _ => true
|}.

Section WithEnv.
Variable py : Env.

(** *** Character classes *)

Definition is_ascii (c : N) : bool := c <? 128.
Definition is_ascii_digit (c : N) : bool := (48 <=? c) && (c <=? 57).
Definition is_ascii_upper (c : N) : bool := (65 <=? c) && (c <=? 90).
Definition is_ascii_lower (c : N) : bool := (97 <=? c) && (c <=? 122).
Definition is_ascii_alpha (c : N) : bool := is_ascii_upper c || is_ascii_lower c.

(** [\d] of a [str] pattern: [Py_UNICODE_ISDECIMAL]. *)
Definition isdecimal (c : N) : bool :=
  if is_ascii c then is_ascii_digit c
  else match unicode_todecimal py c with Some _ => true | None => false end.

(** [Py_ISSPACE], the white space of [PyLong_FromString]:
    tab, line feed, vertical tab, form feed, carriage return, space. *)
Definition py_isspace (c : N) : bool :=
  ((9 <=? c) && (c <=? 13)) || (c =? 32).

(** [itertools.takewhile]/[dropwhile] in one pass: the longest prefix whose
    characters satisfy [p], and the rest.  This is what a greedy [C+] or
    [C*] of a character class consumes. *)
Fixpoint span (p : N -> bool) (s : str) : str * str :=
  match s with
  | [] => ([], [])
  | c :: r => if p c then let '(a, b) := span p r in (c :: a, b) else ([], s)
  end.

(** *** [int(value)] *)

(** [_PyUnicode_TransformDecimalAndSpaceToASCII]: ASCII stays, Unicode
    white space becomes a space, a Unicode decimal digit becomes its ASCII
    digit, and the first other character becomes ['?'] and ends the
    result.  (CPython keeps code points below 127 and asks the database
    about 127, which it knows as neither space nor digit.) *)
Fixpoint transform_decimal_and_space_to_ascii (s : str) : str :=
  match s with
  | [] => []
  | c :: r =>
    if is_ascii c then c :: transform_decimal_and_space_to_ascii r
    else if unicode_isspace py c then 32 :: transform_decimal_and_space_to_ascii r
    else match unicode_todecimal py c with
         | Some d => (48 + N.of_nat (fin_to_nat d)) :: transform_decimal_and_space_to_ascii r
         | None => [63]
         end
  end.

(** The variable [prev] of [long_from_string_base]. *)
Inductive prev_char : Type := PrevNone | PrevDigit | PrevUnderscore.

(** The scan of [long_from_string_base] over digits and underscores: the
    value read, the number of digits and the unread rest.  [None] is the
    failure on a leading, doubled or trailing underscore or on an empty
    literal. *)
Fixpoint scan_digits (acc : Z) (digits : N) (prev : prev_char) (s : str)
  : option (Z * N * str) :=
  let stop :=
    match prev with
    | PrevDigit => Some (acc, digits, s)
    | PrevNone | PrevUnderscore => None
    end in
  match s with
  | [] => stop
  | c :: r =>
    if is_ascii_digit c then
      scan_digits (10 * acc + Z.of_N (c - 48))%Z (digits + 1) PrevDigit r
    else if c =? 95 then
      match prev with
      | PrevDigit => scan_digits acc digits PrevUnderscore r
      | PrevNone | PrevUnderscore => None
      end
    else stop
  end.

(** [_PY_LONG_MAX_STR_DIGITS_THRESHOLD] *)
Definition max_str_digits_threshold : N := 640.

(** The guard of [long_from_string_base] against long decimal strings. *)
Definition exceeds_max_str_digits (digits : N) : bool :=
  (max_str_digits_threshold <? digits)
  && (0 <? int_max_str_digits py)
  && (int_max_str_digits py <? digits).

(** [PyLong_FromString(buffer, &end, 10)] with the test
    [end == buffer + buflen] of [PyLong_FromUnicodeObject]: white space, a
    sign, the digits, white space, and nothing more. *)
Definition long_from_string (buffer : str) : option Z :=
  let '(_, s1) := span py_isspace buffer in
  let '(negative, s2) :=
    match s1 with
    | c :: r =>
      if c =? 43 then (false, r)
      else if c =? 45 then (true, r)
      else (false, s1)
    | [] => (false, s1)
    end in
  match scan_digits 0 0 PrevNone s2 with
  | Some (n, digits, s3) =>
    let '(_, s4) := span py_isspace s3 in
    match s4 with
    | [] =>
      if exceeds_max_str_digits digits then None
      else Some (if negative then (- n)%Z else n)
    | _ :: _ => None
    end
  | None => None
  end.

(** [int(value)] for a [str]: [Some n] when it returns [n], [None] when it
    raises [ValueError]. *)
Definition int (value : str) : option Z :=
  long_from_string (transform_decimal_and_space_to_ascii value).

(** *** The regular expressions of the validator *)

(** The class [[a-zA-Z0-9_]]. *)
Definition is_name_char (c : N) : bool :=
  is_ascii_alpha c || is_ascii_digit c || (c =? 95).

(** The class [[^&]]. *)
Definition is_not_amp (c : N) : bool := negb (c =? 38).

(** One attempt of the pattern of [finditer_params] at the start of [s]:
    the two groups and what follows the match.  Both classes are taken greedily; a
    shorter name is followed by a name character, never by [=], so
    backtracking finds nothing more. *)
Definition match_param (s : str) : option (str * str * str) :=
  let '(name, r) := span is_name_char s in
  match name, r with
  | _ :: _, c :: r' =>
    if c =? 61 then
      let '(value, rest) := span is_not_amp r' in Some (name, value, rest)
    else None
  | _, _ => None
  end.

(** [re.finditer(pattern, s)] for the pattern of [validate_vast_request]
    (one or more of [[a-zA-Z0-9_]], then [=], then any number of [[^&]]):
    the matches from left to right, each search starting where the previous
    match ended.  A match
    consumes at least two characters and a failed attempt moves one
    character on, so [fuel] steps suffice for a string of [fuel]
    characters. *)
Fixpoint finditer_params_from (fuel : nat) (s : str) : list (str * str) :=
  match fuel, s with
  | S fuel', _ :: r =>
    match match_param s with
    | Some (name, value, rest) => (name, value) :: finditer_params_from fuel' rest
    | None => finditer_params_from fuel' r
    end
  | _, _ => []
  end.

Definition finditer_params (s : str) : list (str * str) :=
  finditer_params_from (length s) s.

(** [re.match(r"^\d+x\d+$", value)] as a truth value.  [$] matches at the
    end of the string and just before a line feed that ends it. *)
Definition match_size (value : str) : bool :=
  let '(width, r1) := span isdecimal value in
  match width, r1 with
  | _ :: _, c :: r2 =>
    if c =? 120 then
      let '(height, r3) := span isdecimal r2 in
      match height, r3 with
      | _ :: _, [] => true
      | _ :: _, [c'] => c' =? 10
      | _, _ => false
      end
    else false
  | _, _ => false
  end.

(** *** [urllib.parse.unquote] *)

(** The error handlers of [bytes.decode]. *)
Inductive errors : Type := strict | replace.

Definition is_continuation_byte (b : N) : bool := (128 <=? b) && (b <? 192).

(** One step of CPython's UTF-8 decoder at the head of [s]: [inl cp] for a
    decoded code point and [inr tt] for an error, with the number of bytes
    the step covers (for an error, the bytes a handler replaces). *)
Definition utf8_step (s : bytes) : (N + unit) * nat :=
  match s with
  | [] => (inr tt, 0%nat)
  | ch :: r =>
    if ch <? 128 then (inl ch, 1%nat)
    else if ch <? 194 then (inr tt, 1%nat)
    else if ch <? 224 then
      match r with
      | [] => (inr tt, 1%nat)
      | ch2 :: _ =>
        if is_continuation_byte ch2
        then (inl ((ch - 192) * 64 + (ch2 - 128)), 2%nat)
        else (inr tt, 1%nat)
      end
    else if ch <? 240 then
      match r with
      | [] => (inr tt, 1%nat)
      | ch2 :: r2 =>
        if negb (is_continuation_byte ch2)
           || (if ch2 <? 160 then ch =? 224 else ch =? 237)
        then (inr tt, 1%nat)
        else match r2 with
             | [] => (inr tt, 2%nat)
             | ch3 :: _ =>
               if is_continuation_byte ch3
               then (inl ((ch - 224) * 4096 + (ch2 - 128) * 64 + (ch3 - 128)), 3%nat)
               else (inr tt, 2%nat)
             end
      end
    else if ch <? 245 then
      match r with
      | [] => (inr tt, 1%nat)
      | ch2 :: r2 =>
        if negb (is_continuation_byte ch2)
           || (if ch2 <? 144 then ch =? 240 else ch =? 244)
        then (inr tt, 1%nat)
        else match r2 with
             | [] => (inr tt, 2%nat)
             | ch3 :: r3 =>
               if negb (is_continuation_byte ch3) then (inr tt, 2%nat)
               else match r3 with
                    | [] => (inr tt, 3%nat)
                    | ch4 :: _ =>
                      if is_continuation_byte ch4
                      then (inl ((ch - 240) * 262144 + (ch2 - 128) * 4096
                                 + (ch3 - 128) * 64 + (ch4 - 128)), 4%nat)
                      else (inr tt, 3%nat)
                    end
             end
      end
    else (inr tt, 1%nat)
  end.

(** [data.decode("utf-8", errors)]: [None] is [UnicodeDecodeError].  [skip]
    counts the bytes of the current step still to pass over. *)
Fixpoint utf8_decode_from (handler : errors) (skip : nat) (s : bytes) : option str :=
  match s with
  | [] => Some []
  | _ :: r =>
    match skip with
    | S k => utf8_decode_from handler k r
    | O =>
      match utf8_step s with
      | (inl cp, n) => cons cp <$> utf8_decode_from handler (Nat.pred n) r
      | (inr _, n) =>
        match handler with
        | strict => None
        | replace => cons 65533 <$> utf8_decode_from handler (Nat.pred n) r
        end
      end
    end
  end.

Definition utf8_decode (handler : errors) (data : bytes) : option str :=
  utf8_decode_from handler 0 data.

(** The value of a character of [_hexdig]. *)
Definition hexdig (c : N) : option N :=
  if is_ascii_digit c then Some (c - 48)
  else if (65 <=? c) && (c <=? 70) then Some (c - 55)
  else if (97 <=? c) && (c <=? 102) then Some (c - 87)
  else None.

(** [_hextobyte[item[:2]]]: [None] is the [KeyError]. *)
Definition hextobyte (item : bytes) : option N :=
  match item with
  | a :: b :: _ =>
    match hexdig a, hexdig b with
    | Some x, Some y => Some (16 * x + y)
    | _, _ => None
    end
  | _ => None
  end.

(** [string.split(b"%")] *)
Fixpoint split_percent (s : bytes) : list bytes :=
  match s with
  | [] => [[]]
  | c :: r =>
    match split_percent r with
    | first :: others =>
      if c =? 37 then [] :: first :: others else (c :: first) :: others
    | [] => [[c]]
    end
  end.

(** [_unquote_impl] on an ASCII [str], whose UTF-8 encoding is itself. *)
Definition unquote_impl (string : str) : bytes :=
  match split_percent string with
  | [] => string
  | [_] => string
  | first :: items =>
    first ++ concat (List.map (fun item =>
      match hextobyte item with
      | Some byte => byte :: drop 2 item
      | None => 37 :: item
      end) items)
  end.

(** [''.join(_generate_unquoted_parts(string, "utf-8", handler))]: the
    non-ASCII stretches are kept and each maximal ASCII run is unquoted and
    decoded. *)
Fixpoint unquoted_parts (handler : errors) (fuel : nat) (string : str) : option str :=
  match fuel, string with
  | S fuel', _ :: _ =>
    let '(non_ascii, r) := span (fun c => negb (is_ascii c)) string in
    let '(run, r') := span is_ascii r in
    decoded ← utf8_decode handler (unquote_impl run);
    tail ← unquoted_parts handler fuel' r';
    Some (non_ascii ++ decoded ++ tail)
  | _, _ => Some []
  end.

(** [urllib.parse.unquote(string, encoding="utf-8", errors=handler)];
    the validator calls it with the default handler, [replace]. *)
Definition unquote (handler : errors) (string : str) : option str :=
  if negb (bool_decide (37 ∈ string)) then Some string
  else unquoted_parts handler (length string) string.

(** *** [urllib.parse.urlparse] *)

(** [_WHATWG_C0_CONTROL_OR_SPACE] *)
Definition is_c0_control_or_space (c : N) : bool := c <=? 32.

(** [_UNSAFE_URL_BYTES_TO_REMOVE]: tab, carriage return, line feed. *)
Definition is_unsafe_url_byte (c : N) : bool :=
  (c =? 9) || (c =? 13) || (c =? 10).

(** [scheme_chars] *)
Definition is_scheme_char (c : N) : bool :=
  is_ascii_alpha c || is_ascii_digit c || (c =? 43) || (c =? 45) || (c =? 46).

(** [str.lower] on ASCII letters. *)
Definition ascii_lower (c : N) : N := if is_ascii_upper c then c + 32 else c.

(** The scheme and netloc of [urlparse(url)]; [None] is a [ValueError].
    The path, parameters, query and fragment, which [validate_url] does not
    read, are left out. *)
Definition urlparse (url : str) : option (str * str) :=
  let url := snd (span is_c0_control_or_space url) in
  let url := List.filter (fun c => negb (is_unsafe_url_byte c)) url in
  let '(scheme, url) :=
    let '(head, r) := span (fun c => negb (c =? 58)) url in
    match head, r with
    | c0 :: _, _ :: after_colon =>
      if is_ascii_alpha c0 && forallb is_scheme_char head
      then (List.map ascii_lower head, after_colon)
      else ([], url)
    | _, _ => ([], url)
    end in
  match url with
  | c1 :: c2 :: r =>
    if negb ((c1 =? 47) && (c2 =? 47)) then Some (scheme, []) else
    let netloc := fst (span (fun c => negb ((c =? 47) || (c =? 63) || (c =? 35))) r) in
    let has_open := bool_decide (91 ∈ netloc) in
    let has_close := bool_decide (93 ∈ netloc) in
    if (has_open && negb has_close) || (has_close && negb has_open) then None
    else if has_open && has_close
            && negb (bracketed_host_ok py
                       (fst (span (fun c => negb (c =? 93))
                               (drop 1 (snd (span (fun c => negb (c =? 91)) netloc))))))
    then None
    else if negb (forallb is_ascii netloc) && negb (nfkc_netloc_ok py netloc) then None
    else Some (scheme, netloc)
  | _ => Some (scheme, [])
  end.

End WithEnv.

End Py.

(** ** The validator *)

Module Vast.
Import Py.

(** The rule of one parameter: the dictionary [{"type": ...}] of the
    registry, with the [allowed_values] of an enum.  [validate_param]
    has no branch for the type ["str"]. *)
Inductive rule : Type :=
  | Int
  | Url
  | Enum (allowed_values : list str)
  | Size
  | Bool
  | Str.

(** A tier of the registry, in the order in which the dictionary was
    written. *)
Definition param_dict : Type := list (str * rule).

(** The three tiers of an implementation type. *)
Record type_rules : Type := {
  required : param_dict;
  programmatic_required : param_dict;
  programmatic_recommended : param_dict
}.

(** An entry of the returned list:
    [{"parameter": ..., "type": ..., "message": ...}]. *)
Record issue : Type := {
  parameter : str;
  type : str;
  message : str
}.

#[global] Instance issue_eq_dec : EqDecision issue.
Proof. solve_decision. Defined.

#[global] Instance rule_eq_dec : EqDecision rule.
Proof. solve_decision. Defined.

Definition env_values : list str := [lit "vp"; lit "instream"; lit "outstream"].
Definition output_values : list str :=
  [lit "vast"; lit "xml_vast2"; lit "xml_vast3"; lit "xml_vast4"].
Definition vpos_values : list str :=
  [lit "preroll"; lit "midroll"; lit "postroll"; lit "1"; lit "2"; lit "3"; lit "0"].

Definition web_rules : type_rules := {|
  required := [
    (lit "correlator", Int);
    (lit "description_url", Url);
    (lit "env", Enum env_values);
    (lit "gdfp_req", Int);
    (lit "iu", Str);
    (lit "output", Enum output_values);
    (lit "sz", Size);
    (lit "unviewed_position_start", Int);
    (lit "url", Url);
    (lit "vpmute", Bool)];
  programmatic_required := [
    (lit "ott_placement", Int);
    (lit "plcmt", Int);
    (lit "vpa", Bool)];
  programmatic_recommended := [
    (lit "aconp", Bool);
    (lit "dth", Int);
    (lit "givn", Str);
    (lit "hl", Str);
    (lit "omid_p", Str);
    (lit "vconp", Bool);
    (lit "vid_d", Int);
    (lit "vpos", Enum vpos_values);
    (lit "wta", Int)]
|}.

Definition app_rules : type_rules := {|
  required := [
    (lit "correlator", Int);
    (lit "description_url", Url);
    (lit "env", Enum env_values);
    (lit "gdfp_req", Int);
    (lit "iu", Str);
    (lit "output", Enum output_values);
    (lit "sz", Size);
    (lit "unviewed_position_start", Int);
    (lit "url", Url);
    (lit "vpmute", Bool)];
  programmatic_required := [
    (lit "idtype", Int);
    (lit "is_lat", Bool);
    (lit "ott_placement", Int);
    (lit "plcmt", Int);
    (lit "rdid", Str);
    (lit "vpa", Bool)];
  programmatic_recommended := [
    (lit "aconp", Bool);
    (lit "an", Str);
    (lit "dth", Int);
    (lit "givn", Str);
    (lit "hl", Str);
    (lit "msid", Str);
    (lit "omid_p", Str);
    (lit "pvid", Str);
    (lit "sid", Str);
    (lit "vconp", Bool);
    (lit "vid_d", Int);
    (lit "vpos", Enum vpos_values);
    (lit "wta", Int)]
|}.

Definition ctv_rules : type_rules := {|
  required := [
    (lit "correlator", Int);
    (lit "env", Enum env_values);
    (lit "gdfp_req", Int);
    (lit "iu", Str);
    (lit "output", Enum output_values);
    (lit "sz", Size);
    (lit "url", Url)];
  programmatic_required := [
    (lit "idtype", Int);
    (lit "is_lat", Bool);
    (lit "ott_placement", Int);
    (lit "plcmt", Int);
    (lit "rdid", Str);
    (lit "vpa", Bool);
    (lit "vpmute", Bool)];
  programmatic_recommended := [
    (lit "aconp", Bool);
    (lit "an", Str);
    (lit "dth", Int);
    (lit "givn", Str);
    (lit "hl", Str);
    (lit "msid", Str);
    (lit "omid_p", Str);
    (lit "sid", Str);
    (lit "vconp", Bool);
    (lit "vid_d", Int);
    (lit "vpos", Enum vpos_values);
    (lit "wta", Int)]
|}.

Definition audio_rules : type_rules := {|
  required := [
    (lit "ad_type", Str);
    (lit "correlator", Int);
    (lit "env", Enum env_values);
    (lit "gdfp_req", Int);
    (lit "iu", Str);
    (lit "output", Enum output_values);
    (lit "url", Url)];
  programmatic_required := [
    (lit "idtype", Int);
    (lit "is_lat", Bool);
    (lit "plcmt", Int);
    (lit "rdid", Str);
    (lit "vpa", Bool);
    (lit "vpmute", Bool)];
  programmatic_recommended := [
    (lit "aconp", Bool);
    (lit "an", Str);
    (lit "dth", Int);
    (lit "givn", Str);
    (lit "hl", Str);
    (lit "msid", Str);
    (lit "omid_p", Str);
    (lit "sid", Str);
    (lit "vconp", Bool);
    (lit "vpos", Enum vpos_values);
    (lit "wta", Int)]
|}.

Definition doh_rules : type_rules := {|
  required := [
    (lit "correlator", Int);
    (lit "env", Enum env_values);
    (lit "gdfp_req", Int);
    (lit "iu", Str);
    (lit "output", Enum output_values);
    (lit "sz", Size);
    (lit "url", Url);
    (lit "vpmute", Bool)];
  programmatic_required := [
    (lit "idtype", Int);
    (lit "is_lat", Bool);
    (lit "plcmt", Int);
    (lit "rdid", Str);
    (lit "sid", Str);
    (lit "venuetype", Int)];
  programmatic_recommended := [
    (lit "aconp", Bool);
    (lit "an", Str);
    (lit "dth", Int);
    (lit "givn", Str);
    (lit "hl", Str);
    (lit "msid", Str);
    (lit "omid_p", Str)]
|}.

(** [self.param_rules], keyed by implementation type in the order of
    [__init__]. *)
Definition param_rules : list (str * type_rules) := [
  (lit "web", web_rules);
  (lit "app", app_rules);
  (lit "ctv", ctv_rules);
  (lit "audio", audio_rules);
  (lit "doh", doh_rules)].

(** [d[key]] and [key in d] for a dictionary kept as a list of items. *)
Fixpoint dict_get {V : Type} (d : list (str * V)) (key : str) : option V :=
  match d with
  | [] => None
  | (k, v) :: rest => if bool_decide (k = key) then Some v else dict_get rest key
  end.

(** Which of the three dictionaries of [rules] a [param_dict] of the main
    loop is: the loop tells them apart by identity ([is]). *)
Inductive tier : Type := required_tier | programmatic_required_tier | programmatic_recommended_tier.

#[global] Instance tier_eq_dec : EqDecision tier.
Proof. solve_decision. Defined.

Section WithEnv.
Variable py : Env.

(** [VastRequestValidator.validate_url] *)
Definition validate_url (url_string : str) : bool :=
  match urlparse py url_string with
  | Some (scheme, netloc) =>
    str_in scheme [lit "http"; lit "https"] && negb (bool_decide (netloc = []))
  | None => false
  end.

(** The nested [validate_param]; it appends to the [errors] of the
    enclosing call, which is passed in and returned here. *)
Definition validate_param (param : str) (rules : rule) (value : str)
    (errors : list issue) : list issue :=
  if bool_decide (value = []) then
    errors ++ [{| parameter := param; type := lit "invalid";
                  message := lit "Parameter value is empty" |}]
  else
    match rules with
    | Int =>
      match int py value with
      | Some _ => errors
      | None =>
        errors ++ [{| parameter := param; type := lit "invalid";
                      message := lit "Expected integer, got '" ++ value ++ lit "'" |}]
      end
    | Url =>
      if negb (validate_url value) then
        errors ++ [{| parameter := param; type := lit "invalid";
                      message := lit "Invalid URL: '" ++ value ++ lit "'" |}]
      else errors
    | Enum allowed_values =>
      if negb (str_in value allowed_values) then
        errors ++ [{| parameter := param; type := lit "invalid";
                      message := lit "Invalid value. Allowed values: "
                                 ++ join (lit ", ") allowed_values |}]
      else errors
    | Size =>
      if negb (match_size py value) then
        errors ++ [{| parameter := param; type := lit "invalid";
                      message := lit "Expected format WIDTHxHEIGHT (e.g., 640x480)" |}]
      else errors
    | Bool =>
      if negb (str_in value [lit "0"; lit "1"]) then
        errors ++ [{| parameter := param; type := lit "invalid";
                      message := lit "Expected 0 or 1, got '" ++ value ++ lit "'" |}]
      else errors
    | Str => errors
    end.

(** The loop over the matches of the request: each value is stored under
    its name, after unquoting when [decode_params] is set.  [None] is an
    exception escaping from [unquote]. *)
Fixpoint store_params (decode_params : bool) (matches : list (str * str))
    (present_params : gmap str str) : option (gmap str str) :=
  match matches with
  | [] => Some present_params
  | (param_name, param_value) :: rest =>
    param_value ← (if decode_params then unquote replace param_value
                   else Some param_value);
    store_params decode_params rest (<[param_name := param_value]> present_params)
  end.

(** The inner loop [for param, param_rules in param_dict.items()]. *)
Fixpoint check_params (present_params : gmap str str) (error_message : str)
    (is_required : bool) (items : param_dict) (errors : list issue) : list issue :=
  match items with
  | [] => errors
  | (param, param_rules) :: rest =>
    let errors :=
      match present_params !! param with
      | None =>
        if is_required then
          errors ++ [{| parameter := param; type := lit "missing";
                        message := error_message |}]
        else errors
      | Some value => validate_param param param_rules value errors
      end in
    check_params present_params error_message is_required rest errors
  end.

(** The list the outer loop runs over: each dictionary with its message and
    its [is_required] flag. *)
Definition tiers (rules : type_rules) (is_programmatic : bool)
  : list (tier * param_dict * str * bool) := [
  (required_tier, required rules, lit "Missing required parameter", true);
  (programmatic_required_tier, programmatic_required rules,
   lit "Missing required programmatic parameter", is_programmatic);
  (programmatic_recommended_tier, programmatic_recommended rules,
   lit "Recommended programmatic parameter not found", false)].

(** The outer loop.  [continue] skips the dictionary that is
    [rules.get("programmatic_required")] when [is_required] is false. *)
Fixpoint check_tiers (present_params : gmap str str)
    (todo : list (tier * param_dict * str * bool)) (errors : list issue) : list issue :=
  match todo with
  | [] => errors
  | (which, items, error_message, is_required) :: rest =>
    let errors :=
      if negb is_required && bool_decide (which = programmatic_required_tier)
      then errors
      else check_params present_params error_message is_required items errors in
    check_tiers present_params rest errors
  end.

(** [VastRequestValidator.validate_vast_request]: the present parameters
    and the issues, or [None] when an exception escapes. *)
Definition validate_vast_request (vast_request implementation_type : str)
    (is_programmatic decode_params : bool)
  : option (gmap str str * list issue) :=
  let present_params : gmap str str := ∅ in
  let errors : list issue := [] in
  let warnings : list issue := [] in
  match dict_get param_rules implementation_type with
  | None =>
    let errors := errors ++ [{|
      parameter := lit "implementation_type";
      type := lit "invalid";
      message := lit "Invalid implementation type: '" ++ implementation_type
                 ++ lit "'. Allowed types are: "
                 ++ join (lit ", ") (List.map fst param_rules) |}] in
    Some (present_params, errors)
  | Some rules =>
    present_params ← store_params decode_params (finditer_params vast_request)
                       present_params;
    let errors := check_tiers present_params (tiers rules is_programmatic) errors in
    Some (present_params, errors ++ warnings)
  end.

(** The split of [main]: an issue is an error when its type is
    ["invalid"] or ["missing"], a warning otherwise; the JSON field
    [valid] is [not errors]. *)
Definition is_error (i : issue) : bool :=
  str_in (type i) [lit "invalid"; lit "missing"].

Definition errors_of (issues : list issue) : list issue :=
  List.filter is_error issues.

Definition warnings_of (issues : list issue) : list issue :=
  List.filter (fun i => negb (is_error i)) issues.

Definition valid (issues : list issue) : bool :=
  bool_decide (errors_of issues = []).

(** What the inner loop adds to [errors] for one item, and what the outer
    loop adds for one dictionary. *)
Definition param_issues (present_params : gmap str str) (error_message : str)
    (is_required : bool) (item : str * rule) : list issue :=
  check_params present_params error_message is_required [item] [].

Definition tier_issues (present_params : gmap str str)
    (t : tier * param_dict * str * bool) : list issue :=
  check_tiers present_params [t] [].

(** The issue of the empty-value check. *)
Definition empty_value_issue (param : str) : issue :=
  {| parameter := param; type := lit "invalid";
     message := lit "Parameter value is empty" |}.

(** The issue of the unknown implementation type. *)
Definition implementation_type_issue (implementation_type : str) : issue :=
  {| parameter := lit "implementation_type"; type := lit "invalid";
     message := lit "Invalid implementation type: '" ++ implementation_type
                ++ lit "'. Allowed types are: web, app, ctv, audio, doh" |}.

End WithEnv.

End Vast.

(** The names declared by an implementation type, tier after tier. *)
Definition declared (rules : Vast.type_rules) : list Py.str :=
  (Vast.required rules).*1 ++ (Vast.programmatic_required rules).*1
  ++ (Vast.programmatic_recommended rules).*1.

(** The items of the three tiers, in the same order. *)
Definition all_items (rules : Vast.type_rules) : Vast.param_dict :=
  Vast.required rules ++ Vast.programmatic_required rules
  ++ Vast.programmatic_recommended rules.

(** The issues of a list that name the parameter [param]. *)
Definition issues_for (param : Py.str) (issues : list Vast.issue)
  : list Vast.issue :=
  filter (λ i, Vast.parameter i = param) issues.

(** *** The integer literals of [int], stated on the value itself *)

Section Literal.
Variable py : Py.Env.

(** White space and decimal digits as [int] reads them: the ASCII ones, and
    from code point 128 on what the Unicode database gives, white space
    taking precedence as in the transformation to ASCII. *)
Definition int_space (c : N) : bool :=
  if Py.is_ascii c then Py.py_isspace c else Py.unicode_isspace py c.

Definition int_digit (c : N) : bool :=
  if Py.is_ascii c then Py.is_ascii_digit c
  else negb (Py.unicode_isspace py c) && Py.isdecimal py c.

(** What may follow the first digit of a literal: digits, each preceded by
    at most one underscore. *)
Inductive digit_tail : Py.str → Prop :=
  | tail_nil : digit_tail []
  | tail_digit d s : int_digit d = true → digit_tail s → digit_tail (d :: s)
  | tail_underscore d s :
      int_digit d = true → digit_tail s → digit_tail (95 :: d :: s).

(** The number of digits of a stretch of digits and underscores. *)
Definition count_digits (s : Py.str) : N :=
  N.of_nat (length (List.filter int_digit s)).

(** The values [int] accepts: white space, an optional sign, a digit and
    its tail, white space; and no more digits than the interpreter's limit
    allows. *)
Definition int_literal (value : Py.str) : Prop :=
  ∃ ws1 sign d tail ws2,
    value = ws1 ++ sign ++ (d :: tail) ++ ws2
    ∧ Forall (λ c, int_space c = true) ws1
    ∧ Forall (λ c, int_space c = true) ws2
    ∧ (sign = [] ∨ sign = [43] ∨ sign = [45])
    ∧ int_digit d = true ∧ digit_tail tail
    ∧ Py.exceeds_max_str_digits py (1 + count_digits tail) = false.

(** The scan of [Py.scan_digits] read on the value itself, without the
    number it computes. *)
Fixpoint scan (prev : Py.prev_char) (digits : N) (s : Py.str)
  : option (N * Py.str) :=
  let stop :=
    match prev with
    | Py.PrevDigit => Some (digits, s)
    | Py.PrevNone | Py.PrevUnderscore => None
    end in
  match s with
  | [] => stop
  | c :: r =>
    if int_digit c then scan Py.PrevDigit (digits + 1) r
    else if c =? 95 then
      match prev with
      | Py.PrevDigit => scan Py.PrevUnderscore digits r
      | Py.PrevNone | Py.PrevUnderscore => None
      end
    else stop
  end.

(** [Py.long_from_string] read on the value itself: the number of digits
    of an accepted literal. *)
Definition int_accepts (value : Py.str) : option N :=
  let s1 := (Py.span int_space value).2 in
  let s2 :=
    match s1 with
    | c :: r => if c =? 43 then r else if c =? 45 then r else s1
    | [] => s1
    end in
  match scan Py.PrevNone 0 s2 with
  | Some (digits, s3) =>
    match (Py.span int_space s3).2 with
    | [] => Some digits
    | _ :: _ => None
    end
  | None => None
  end.

End Literal.

(** The request of [test_validate_vast_request_web_required]. *)
Definition web_request : Py.str :=
  Py.lit "correlator=123&description_url=http://example.com&env=vp&gdfp_req=1&iu=/123/example&output=vast&sz=640x480&unviewed_position_start=1&url=http://example.com&vpmute=0".

(** ** Definitions for the further properties *)

(** The issue of a missing parameter. *)
Definition missing_issue (param error_message : Py.str) : Vast.issue :=
  {| Vast.parameter := param; Vast.type := Py.lit "missing";
     Vast.message := error_message |}.

(** A query string written from its pairs: [name=value] joined by [&]. *)
Definition query_string (pairs : list (Py.str * Py.str)) : Py.str :=
  Py.join [38] (List.map (λ nv, nv.1 ++ [61] ++ nv.2) pairs).

(** The items of the tiers a call evaluates, in the order of evaluation. *)
Definition active_items (rules : Vast.type_rules) (is_programmatic : bool)
  : Vast.param_dict :=
  Vast.required rules
  ++ (if is_programmatic then Vast.programmatic_required rules else [])
  ++ Vast.programmatic_recommended rules.




(** ** The command line: [main] after argument parsing *)

Module Cli.

(** The [choices] of [--implementation_type]: [parse_args] admits no other
    value. *)
Inductive implementation_choice : Type := web | app | ctv | audio | doh.

Definition choice_name (c : implementation_choice) : Py.str :=
  match c with
  | web => Py.lit "web"
  | app => Py.lit "app"
  | ctv => Py.lit "ctv"
  | audio => Py.lit "audio"
  | doh => Py.lit "doh"
  end.

(** The namespace [parse_args] returns. *)
Record args : Type := {
  vast_request : Py.str;
  implementation_type : implementation_choice;
  programmatic : bool;
  json : bool;
  decode : bool;
  quiet : bool
}.

(** The dictionary [output] that the JSON branch hands to [json.dumps]. *)
Record output : Type := {
  valid : bool;
  errors : list Vast.issue;
  warnings : list Vast.issue;
  present_parameters : gmap Py.str Py.str
}.

(** What [main] writes: the argument of each [print], a line of text or,
    in the JSON branch, the dictionary that [json.dumps] serialises. *)
Inductive printed : Type :=
  | print (line : Py.str)
  | print_json (o : output).

(** [str.lower] on an ASCII string. *)
Definition lower (s : Py.str) : Py.str := List.map Py.ascii_lower s.

(** The order in which a dictionary filled from [matches] iterates: each
    name at the place of its first occurrence. *)
Fixpoint keys_after (keys : list Py.str) (matches : list (Py.str * Py.str))
  : list Py.str :=
  match matches with
  | [] => keys
  | (name, _) :: rest =>
    keys_after (if bool_decide (name ∈ keys) then keys else keys ++ [name]) rest
  end.

(** The keys of [present_params] in iteration order, for an implementation
    type of [choices]. *)
Definition present_order (vast_request : Py.str) : list Py.str :=
  keys_after [] (Py.finditer_params vast_request).

(** The three lines of an error and the two lines of a warning. *)
Definition error_lines (error : Vast.issue) : list printed :=
  [print (Py.lit "  Parameter: " ++ Vast.parameter error);
   print (Py.lit "    Type: " ++ Vast.type error);
   print (Py.lit "    Message: " ++ Vast.message error)].

Definition warning_lines (warning : Vast.issue) : list printed :=
  [print (Py.lit "  Parameter: " ++ Vast.parameter warning);
   print (Py.lit "    Message: " ++ Vast.message warning)].

(** [main], from the parsed arguments on; [None] when an exception
    escapes. *)
Definition main (py : Py.Env) (a : args) : option (list printed) :=
  let is_programmatic := programmatic a in
  let implementation_type := lower (choice_name (implementation_type a)) in
  match Vast.validate_vast_request py (vast_request a) implementation_type
          is_programmatic (decode a) with
  | None => None
  | Some (present_params, issues) =>
    let errors := Vast.errors_of issues in
    let warnings := Vast.warnings_of issues in
    if json a then
      Some [print_json {| valid := bool_decide (errors = []);
                          errors := errors;
                          warnings := warnings;
                          present_parameters := present_params |}]
    else
      Some (
        (if negb (quiet a) then
           [print (10 :: Py.lit "--- Validation Results ---");
            print (Py.lit "Implementation Type: " ++ implementation_type);
            print (Py.lit "Present Parameters: "
                   ++ match Py.join (Py.lit ", ") (present_order (vast_request a)) with
                      | [] => Py.lit "None"
                      | joined => joined
                      end)]
         else [])
        ++ (if negb (bool_decide (errors = [])) then
              print (10 :: Py.lit "--- Errors ---") :: (errors ≫= error_lines)
            else [])
        ++ (if negb (bool_decide (warnings = [])) && negb (quiet a) then
              print (10 :: Py.lit "--- Warnings ---") :: (warnings ≫= warning_lines)
            else [])
        ++ (if bool_decide (errors = []) && negb (quiet a) then
              [print (Py.lit "No errors found.")]
            else []))
  end.

End Cli.

(** A value that passes the check of a rule, for building requests. *)
Definition sample_value (r : Vast.rule) : Py.str :=
  match r with
  | Vast.Int => Py.lit "1"
  | Vast.Url => Py.lit "http://example.com"
  | Vast.Enum allowed_values => List.hd [] allowed_values
  | Vast.Size => Py.lit "640x480"
  | Vast.Bool => Py.lit "0"
  | Vast.Str => Py.lit "x"
  end.

(** The request that gives every evaluated parameter its sample value. *)
Definition sample_request (rules : Vast.type_rules) (is_programmatic : bool)
  : Py.str :=
  query_string
    (List.map (λ item, (item.1, sample_value item.2))
       (active_items rules is_programmatic)).

(** What the registry promises about one item: a name the request pattern
    can match, and for an enum at least one allowed value, none empty. *)
Definition well_formed_item (item : Py.str * Vast.rule) : Prop :=
  item.1 ≠ [] ∧ Forall (λ c, Py.is_name_char c = true) item.1
  ∧ match item.2 with
    | Vast.Enum allowed_values => allowed_values ≠ [] ∧ [] ∉ allowed_values
    | _ => True
    end.

(** A percent escape: a percent sign followed by two hexadecimal digits. *)
Definition has_escape (s : Py.str) : Prop :=
  ∃ before h1 h2 after,
    s = before ++ 37 :: h1 :: h2 :: after
    ∧ is_Some (Py.hexdig h1) ∧ is_Some (Py.hexdig h2).

(** [has_escape], computed. *)
Fixpoint find_escape (s : Py.str) : bool :=
  match s with
  | [] => false
  | c :: r =>
    ((c =? 37)
     && match r with
        | h1 :: h2 :: _ =>
          bool_decide (is_Some (Py.hexdig h1))
          && bool_decide (is_Some (Py.hexdig h2))
        | _ => false
        end)
    || find_escape r
  end.


(** ** Properties *)

Import Py Vast.

(** *** The library model *)

Lemma span_app (p : N → bool) (s : str) :
  (span p s).1 ++ (span p s).2 = s.
Proof.
  induction s as [|c r IH]; simpl; [done|].
  destruct (p c); [|done].
  destruct (span p r) as [a b]; simpl in *. by rewrite IH.
Qed.

Lemma span_fst_Forall (p : N → bool) (s : str) :
  Forall (λ c, p c = true) (span p s).1.
Proof.
  induction s as [|c r IH]; simpl; [constructor|].
  destruct (p c) eqn:Hc; [|constructor].
  destruct (span p r) as [a b]; simpl in *. by constructor.
Qed.

Lemma span_snd_head (p : N → bool) (s : str) c r :
  (span p s).2 = c :: r → p c = false.
Proof.
  induction s as [|d t IH]; simpl; [done|].
  destruct (p d) eqn:Hd.
  - destruct (span p t) as [a b]; simpl in *. exact IH.
  - simpl. intros [= -> _]. done.
Qed.

Lemma span_length_snd (p : N → bool) (s : str) :
  (length (span p s).2 ≤ length s)%nat.
Proof.
  induction s as [|c r IH]; simpl; [done|].
  destruct (p c); simpl; [|done].
  destruct (span p r) as [a b]; simpl in *. lia.
Qed.

(** A [span] is determined by a split into a prefix of [p]-characters and
    a rest that is empty or starts outside [p]. *)
Lemma span_unique (p : N → bool) (a b : str) :
  Forall (λ c, p c = true) a →
  (b = [] ∨ ∃ c r, b = c :: r ∧ p c = false) →
  span p (a ++ b) = (a, b).
Proof.
  intros Ha Hb. induction Ha as [|c a Hc Ha IH]; simpl.
  - destruct Hb as [->|(c & r & -> & Hc)]; simpl; [done|]. by rewrite Hc.
  - by rewrite Hc, IH.
Qed.

(** With the handler [replace], UTF-8 decoding returns. *)
Lemma utf8_decode_from_replace skip (s : bytes) :
  is_Some (utf8_decode_from replace skip s).
Proof.
  revert skip. induction s as [|b r IH]; intros skip; [by eexists|].
  cbn [utf8_decode_from].
  destruct skip as [|k]; [|apply IH].
  destruct (utf8_step (b :: r)) as [[cp|u] n];
    destruct (IH (Nat.pred n)) as [t Ht]; rewrite Ht; by eexists.
Qed.

Lemma unquoted_parts_replace fuel (s : str) :
  is_Some (unquoted_parts replace fuel s).
Proof.
  revert s. induction fuel as [|fuel IH]; intros s; simpl; [by eexists|].
  destruct s as [|c r]; [by eexists|].
  destruct (span (λ c, negb (is_ascii c)) (c :: r)) as [na r1].
  destruct (span is_ascii r1) as [run r2].
  destruct (utf8_decode_from_replace 0 (unquote_impl run)) as [d Hd].
  unfold utf8_decode. rewrite Hd. simpl.
  destruct (IH r2) as [t Ht]. rewrite Ht. simpl. by eexists.
Qed.

(** [unquote] with its default handler raises on no string. *)
Lemma unquote_replace_returns (s : str) : is_Some (unquote replace s).
Proof.
  unfold unquote. destruct (negb _); [by eexists|apply unquoted_parts_replace].
Qed.

(** *** The loops of [validate_vast_request] *)

Section Loops.
Variable py : Env.

Lemma validate_param_app param rules value errors :
  validate_param py param rules value errors
  = errors ++ validate_param py param rules value [].
Proof.
  unfold validate_param. case_bool_decide; [done|].
  destruct rules; simpl; repeat case_match; simpl; rewrite ?app_nil_r; done.
Qed.

Lemma param_issues_eq present msg req param rules :
  param_issues py present msg req (param, rules)
  = match present !! param with
    | None =>
      if req then [{| parameter := param; type := lit "missing"; message := msg |}]
      else []
    | Some value => validate_param py param rules value []
    end.
Proof. unfold param_issues. cbn [check_params]. by destruct (present !! param), req. Qed.

Lemma check_params_app present msg req items errors :
  check_params py present msg req items errors
  = errors ++ (items ≫= param_issues py present msg req).
Proof.
  revert errors. induction items as [|[param rules] rest IH]; intros errors.
  - cbn. by rewrite app_nil_r.
  - cbn [check_params]. rewrite IH, bind_cons, param_issues_eq.
    destruct (present !! param) as [value|].
    + rewrite (validate_param_app _ _ _ errors). by rewrite <- app_assoc.
    + destruct req; by rewrite <- ?app_assoc.
Qed.

Lemma tier_issues_eq present which items msg req :
  tier_issues py present (which, items, msg, req)
  = if negb req && bool_decide (which = programmatic_required_tier) then []
    else items ≫= param_issues py present msg req.
Proof.
  unfold tier_issues. cbn [check_tiers].
  destruct (negb req && _); [done|]. by rewrite check_params_app.
Qed.

Lemma check_tiers_app present todo errors :
  check_tiers py present todo errors
  = errors ++ (todo ≫= tier_issues py present).
Proof.
  revert errors. induction todo as [|[[[which items] msg] req] rest IH];
    intros errors.
  - cbn. by rewrite app_nil_r.
  - cbn [check_tiers]. rewrite IH, bind_cons, tier_issues_eq.
    destruct (negb req && _); [done|].
    by rewrite (check_params_app _ _ _ _ errors), <- app_assoc.
Qed.

End Loops.

(** *** Dictionaries and the registry *)

Lemma dict_get_Some_elem {V} (d : list (str * V)) key v :
  dict_get d key = Some v → (key, v) ∈ d.
Proof.
  induction d as [|[k w] rest IH]; simpl; [done|].
  case_bool_decide as Hk.
  - intros [= ->]. subst. left.
  - intros H. right. by apply IH.
Qed.

Lemma dict_get_Some_key {V} (d : list (str * V)) key v :
  dict_get d key = Some v → key ∈ d.*1.
Proof.
  intros H. apply list_elem_of_fmap. exists (key, v).
  split; [done|by apply dict_get_Some_elem].
Qed.

Lemma dict_get_None {V} (d : list (str * V)) key :
  key ∉ d.*1 → dict_get d key = None.
Proof.
  induction d as [|[k w] rest IH]; simpl; [done|].
  intros Hn. case_bool_decide as Hk.
  - subst. exfalso. apply Hn. left.
  - apply IH. intros Hin. apply Hn. by right.
Qed.

(** The five implementation types are the keys of [param_rules]. *)
Lemma known_rules c rules :
  dict_get param_rules c = Some rules →
  rules ∈ [web_rules; app_rules; ctv_rules; audio_rules; doh_rules].
Proof.
  intros H. apply dict_get_Some_elem in H.
  unfold param_rules in H. rewrite !elem_of_cons, elem_of_nil in H.
  rewrite !elem_of_cons.
  destruct H as [H|[H|[H|[H|[H|[]]]]]]; injection H as _ ->; auto 10.
Qed.

(** Within an implementation type no name is declared twice, neither inside
    a tier nor across tiers. *)
Lemma registry_nodup c rules :
  dict_get param_rules c = Some rules → NoDup (declared rules).
Proof.
  intros H. apply known_rules in H.
  assert (Forall (λ r, NoDup (declared r))
            [web_rules; app_rules; ctv_rules; audio_rules; doh_rules]) as Hall.
  { repeat constructor; by apply (bool_decide_unpack _); vm_compute. }
  rewrite Forall_forall in Hall. by apply Hall.
Qed.

Lemma declared_nodup_tiers rules :
  NoDup (declared rules) →
  NoDup (required rules).*1 ∧ NoDup (programmatic_required rules).*1
  ∧ NoDup (programmatic_recommended rules).*1
  ∧ (∀ p, p ∈ (required rules).*1 → p ∉ (programmatic_required rules).*1)
  ∧ (∀ p, p ∈ (required rules).*1 → p ∉ (programmatic_recommended rules).*1)
  ∧ (∀ p, p ∈ (programmatic_required rules).*1 →
          p ∉ (programmatic_recommended rules).*1).
Proof.
  unfold declared. rewrite !NoDup_app.
  intros (H1 & H12 & H2 & H23 & H3). repeat split; try done.
  - intros p Hp Hq. apply (H12 p Hp), elem_of_app. by left.
  - intros p Hp Hq. apply (H12 p Hp), elem_of_app. by right.
Qed.

(** *** The present parameters *)

Lemma store_params_returns (decode_params : bool) (matches : list (str * str))
    (present : gmap str str) :
  ∃ m, store_params decode_params matches present = Some m
       ∧ dom m = dom present ∪ list_to_set (matches.*1).
Proof.
  revert present. induction matches as [|[name value] rest IH]; intros present.
  - exists present. split; [done|]. cbn. by rewrite (right_id_L ∅ (∪)).
  - cbn [store_params].
    assert (∃ v, (if decode_params then unquote replace value else Some value)
                 = Some v) as [v Hv].
    { destruct decode_params; [apply unquote_replace_returns|by eexists]. }
    rewrite Hv. cbn.
    destruct (IH (<[name:=v]> present)) as (m & Hm & Hdom).
    exists m. split; [done|]. rewrite Hdom, dom_insert_L. cbn.
    by rewrite (comm_L (∪) {[name]} (dom present)), <- (assoc_L (∪)).
Qed.

(** A match of the request pattern is at least two characters long. *)
Lemma match_param_shorter (s : str) name value rest :
  match_param s = Some (name, value, rest) →
  (S (length rest) < length s)%nat.
Proof.
  unfold match_param.
  pose proof (span_app is_name_char s) as Happ.
  destruct (span is_name_char s) as [n r]; simpl in Happ.
  destruct n as [|c n]; [done|]. destruct r as [|e r']; [done|].
  destruct (e =? 61); [|done].
  pose proof (span_length_snd is_not_amp r') as Hlen.
  destruct (span is_not_amp r') as [v t]; simpl in Hlen.
  intros [= <- <- <-]. subst s. simpl. rewrite length_app. simpl. lia.
Qed.

(** Whatever fuel covers the length of the string gives the same matches:
    the search never runs out of fuel before the string ends. *)
Lemma finditer_params_from_enough fuel (s : str) :
  (length s ≤ fuel)%nat → finditer_params_from fuel s = finditer_params s.
Proof.
  unfold finditer_params.
  assert (∀ f1 f2 (t : str), (length t ≤ f1)%nat → (length t ≤ f2)%nat →
            finditer_params_from f1 t = finditer_params_from f2 t) as Hgen.
  { induction f1 as [|f1 IH]; intros f2 t H1 H2.
    - destruct t; [|simpl in H1; lia]. by destruct f2.
    - destruct t as [|c r]; [by destruct f2|].
      destruct f2 as [|f2]; [simpl in H2; lia|].
      cbn [finditer_params_from].
      destruct (match_param (c :: r)) as [[[n v] rest]|] eqn:Hm.
      + apply match_param_shorter in Hm. simpl in *.
        f_equal. apply IH; lia.
      + simpl in *. apply IH; lia. }
  intros H. by apply Hgen.
Qed.

(** *** The issues of a call *)

Section Issues.
Variable py : Env.

(** [validate_param] adds at most issues of type ["invalid"] for the
    parameter it checks. *)
Lemma elem_of_validate_param i param rules value :
  i ∈ validate_param py param rules value [] →
  parameter i = param ∧ type i = lit "invalid".
Proof.
  unfold validate_param. case_bool_decide.
  - intros ->%list_elem_of_singleton. done.
  - destruct rules; repeat case_match;
      rewrite ?app_nil_l, ?elem_of_nil, ?list_elem_of_singleton;
      try done; by intros ->.
Qed.

Lemma elem_of_param_issues i present msg req param rules :
  i ∈ param_issues py present msg req (param, rules) →
  parameter i = param
  ∧ ((present !! param = None ∧ type i = lit "missing")
     ∨ (∃ value, present !! param = Some value
                 ∧ i ∈ validate_param py param rules value [])).
Proof.
  rewrite param_issues_eq. destruct (present !! param) as [value|].
  - intros Hi. split; [by destruct (elem_of_validate_param _ _ _ _ Hi)|].
    right. by exists value.
  - destruct req; [|by rewrite elem_of_nil].
    intros ->%list_elem_of_singleton. split; [done|]. by left.
Qed.

(** The issues of a tier name parameters of that tier. *)
Lemma elem_of_bind_param_issues i present msg req (items : param_dict) :
  i ∈ items ≫= param_issues py present msg req →
  ∃ rules, (parameter i, rules) ∈ items
           ∧ i ∈ param_issues py present msg req (parameter i, rules).
Proof.
  rewrite list_elem_of_bind. intros ([param rules] & Hi & Hin).
  pose proof (elem_of_param_issues _ _ _ _ _ _ Hi) as [<- _].
  by exists rules.
Qed.

(** The issues of the three tiers, one after the other; the second tier
    contributes only to a programmatic request. *)
Lemma tiers_issues present rules is_programmatic :
  tiers rules is_programmatic ≫= tier_issues py present
  = (required rules
       ≫= param_issues py present (lit "Missing required parameter") true)
    ++ (if is_programmatic
        then programmatic_required rules
               ≫= param_issues py present
                    (lit "Missing required programmatic parameter") true
        else [])
    ++ (programmatic_recommended rules
          ≫= param_issues py present
               (lit "Recommended programmatic parameter not found") false).
Proof.
  unfold tiers. rewrite !bind_cons, !tier_issues_eq. cbn.
  rewrite app_nil_r. by destruct is_programmatic.
Qed.

(** For a known implementation type the call returns: the present
    parameters are the stored matches and the issues those of the tiers. *)
Lemma validate_known raw c rules is_programmatic decode_params :
  dict_get param_rules c = Some rules →
  ∃ present,
    store_params decode_params (finditer_params raw) ∅ = Some present
    ∧ dom present = list_to_set ((finditer_params raw).*1)
    ∧ validate_vast_request py raw c is_programmatic decode_params
      = Some (present, tiers rules is_programmatic ≫= tier_issues py present).
Proof.
  intros Hc.
  destruct (store_params_returns decode_params (finditer_params raw) ∅)
    as (present & Hstore & Hdom).
  exists present. split; [done|]. split.
  - by rewrite Hdom, dom_empty_L, (left_id_L ∅ (∪)).
  - unfold validate_vast_request. rewrite Hc, Hstore.
    cbn -[check_tiers tiers]. by rewrite check_tiers_app, app_nil_r.
Qed.

(** Every issue of the tiers names a declared parameter and has type
    ["invalid"] or ["missing"]. *)
Lemma elem_of_tiers_issues i present rules is_programmatic :
  i ∈ tiers rules is_programmatic ≫= tier_issues py present →
  parameter i ∈ declared rules
  ∧ (type i = lit "invalid" ∨ type i = lit "missing").
Proof.
  rewrite tiers_issues, !elem_of_app. unfold declared.
  intros [Hi|[Hi|Hi]].
  - apply elem_of_bind_param_issues in Hi as (r & Hin & Hi).
    apply elem_of_param_issues in Hi as [_ Hi]. split.
    + rewrite elem_of_app. left. apply list_elem_of_fmap. by exists (parameter i, r).
    + destruct Hi as [[_ ->]|(v & _ & Hv)]; [by right|].
      left. by destruct (elem_of_validate_param _ _ _ _ Hv).
  - destruct is_programmatic; [|by apply elem_of_nil in Hi].
    apply elem_of_bind_param_issues in Hi as (r & Hin & Hi).
    apply elem_of_param_issues in Hi as [_ Hi]. split.
    + rewrite !elem_of_app. right. left.
      apply list_elem_of_fmap. by exists (parameter i, r).
    + destruct Hi as [[_ ->]|(v & _ & Hv)]; [by right|].
      left. by destruct (elem_of_validate_param _ _ _ _ Hv).
  - apply elem_of_bind_param_issues in Hi as (r & Hin & Hi).
    apply elem_of_param_issues in Hi as [_ Hi]. split.
    + rewrite !elem_of_app. right. right.
      apply list_elem_of_fmap. by exists (parameter i, r).
    + destruct Hi as [[_ ->]|(v & _ & Hv)]; [by right|].
      left. by destruct (elem_of_validate_param _ _ _ _ Hv).
Qed.

End Issues.

(** *** The issues that name one parameter *)

Section IssuesFor.
Variable py : Env.

Lemma issues_for_all p (l : list issue) :
  (∀ i, i ∈ l → parameter i = p) → issues_for p l = l.
Proof.
  unfold issues_for. induction l as [|i l IH]; intros Hall; [done|].
  rewrite filter_cons_True by (apply Hall; left).
  f_equal. apply IH. intros j Hj. apply Hall. by right.
Qed.

Lemma issues_for_none p (l : list issue) :
  (∀ i, i ∈ l → parameter i ≠ p) → issues_for p l = [].
Proof.
  unfold issues_for. induction l as [|i l IH]; intros Hall; [done|].
  rewrite filter_cons_False by (apply Hall; left).
  apply IH. intros j Hj. apply Hall. by right.
Qed.

Lemma issues_for_app p (l1 l2 : list issue) :
  issues_for p (l1 ++ l2) = issues_for p l1 ++ issues_for p l2.
Proof. apply filter_app. Qed.

(** In a tier without repeated names, the issues that name [p] are those of
    the item of [p]. *)
Lemma issues_for_tier p present msg req (items : param_dict) :
  NoDup items.*1 →
  issues_for p (items ≫= param_issues py present msg req)
  = match dict_get items p with
    | Some rules => param_issues py present msg req (p, rules)
    | None => []
    end.
Proof.
  induction items as [|[q r] rest IH]; [done|].
  rewrite fmap_cons, NoDup_cons. cbn [fst]. intros [Hq Hrest].
  rewrite bind_cons, issues_for_app, (IH Hrest). cbn [dict_get].
  case_bool_decide as Hqp.
  - subst q. rewrite (dict_get_None rest p Hq), app_nil_r.
    apply issues_for_all. intros i Hi.
    by destruct (elem_of_param_issues py _ _ _ _ _ _ Hi).
  - rewrite issues_for_none; [done|]. intros i Hi.
    destruct (elem_of_param_issues py _ _ _ _ _ _ Hi) as [-> _]. done.
Qed.

(** The issues that name [p] in a call for a known implementation type:
    those of the one tier that declares [p], none when that tier is the
    programmatic-required one and the request is not programmatic. *)
Lemma issues_for_tiers p present rules is_programmatic :
  NoDup (declared rules) →
  issues_for p (tiers rules is_programmatic ≫= tier_issues py present)
  = match dict_get (required rules) p,
          dict_get (programmatic_required rules) p,
          dict_get (programmatic_recommended rules) p with
    | Some r, _, _ =>
      param_issues py present (lit "Missing required parameter") true (p, r)
    | None, Some r, _ =>
      if is_programmatic
      then param_issues py present
             (lit "Missing required programmatic parameter") true (p, r)
      else []
    | None, None, Some r =>
      param_issues py present
        (lit "Recommended programmatic parameter not found") false (p, r)
    | None, None, None => []
    end.
Proof.
  intros Hnd.
  destruct (declared_nodup_tiers rules Hnd) as (N1 & N2 & N3 & D12 & D13 & D23).
  rewrite tiers_issues, !issues_for_app, !issues_for_tier by done.
  assert (issues_for p
            (if is_programmatic
             then programmatic_required rules
                    ≫= param_issues py present
                         (lit "Missing required programmatic parameter") true
             else [])
          = match dict_get (programmatic_required rules) p with
            | Some r =>
              if is_programmatic
              then param_issues py present
                     (lit "Missing required programmatic parameter") true (p, r)
              else []
            | None => []
            end) as ->.
  { destruct is_programmatic; [by apply issues_for_tier|by case_match]. }
  destruct (dict_get (required rules) p) as [r1|] eqn:H1.
  - apply dict_get_Some_key in H1.
    rewrite (dict_get_None _ p (D12 p H1)), (dict_get_None _ p (D13 p H1)).
    by rewrite !app_nil_r.
  - destruct (dict_get (programmatic_required rules) p) as [r2|] eqn:H2.
    + apply dict_get_Some_key in H2.
      rewrite (dict_get_None _ p (D23 p H2)). by rewrite app_nil_r.
    + done.
Qed.

End IssuesFor.

(** A list of issues of type "invalid" or "missing" holds no warning for
    [main]. *)
Lemma warnings_of_errors (l : list issue) :
  (∀ i, i ∈ l → type i = lit "invalid" ∨ type i = lit "missing") →
  warnings_of l = [].
Proof.
  unfold warnings_of. induction l as [|i l IH]; intros Htypes; [done|].
  cbn [List.filter].
  assert (is_error i = true) as ->.
  { unfold is_error, str_in. apply bool_decide_eq_true.
    destruct (Htypes i) as [->| ->]; [left|left|right; left]. }
  cbn. apply IH. intros j Hj. apply Htypes. by right.
Qed.

(** ** The claims *)

(** C6.  When the implementation type is not one of web, app, ctv, audio
    and doh, the call returns an empty dictionary of present parameters and
    exactly one issue: type "invalid", parameter "implementation_type", and
    a message that quotes the given type and lists the five allowed ones.
    The result does not mention the request, which is not parsed. *)
Theorem C6_unknown_implementation_type (py : Env) (raw c : str)
    (is_programmatic decode_params : bool) :
  c ∉ [lit "web"; lit "app"; lit "ctv"; lit "audio"; lit "doh"] →
  validate_vast_request py raw c is_programmatic decode_params
  = Some (∅, [implementation_type_issue c]).
Proof.
  intros Hc. unfold validate_vast_request.
  rewrite (dict_get_None param_rules c) by exact Hc.
  reflexivity.
Qed.

Lemma C6_unknown_implementation_type_witness :
  validate_vast_request ascii_env web_request (lit "bogus") false false
  = Some (∅, [implementation_type_issue (lit "bogus")]).
Proof.
  apply (C6_unknown_implementation_type ascii_env web_request (lit "bogus")).
  apply (bool_decide_unpack _). vm_compute. reflexivity.
Defined.

(** The call of [test_validate_vast_request_web_required], under any
    interpreter settings: its input is ASCII. *)
Lemma web_request_result (py : Env) :
  ∃ present,
    validate_vast_request py web_request (lit "web") false false
    = Some (present, [])
    ∧ size present = 10%nat
    ∧ dom present
      = list_to_set [lit "correlator"; lit "description_url"; lit "env";
                     lit "gdfp_req"; lit "iu"; lit "output"; lit "sz";
                     lit "unviewed_position_start"; lit "url"; lit "vpmute"].
Proof.
  destruct (validate_known py web_request (lit "web") web_rules false false)
    as (present & Hstore & Hdom & Hval); [reflexivity|].
  exists present. split; [|split].
  - rewrite Hval. f_equal. f_equal.
    vm_compute in Hstore. injection Hstore as <-.
    vm_compute. reflexivity.
  - vm_compute in Hstore. injection Hstore as <-. vm_compute. reflexivity.
  - rewrite Hdom. vm_compute finditer_params. reflexivity.
Qed.

(** C3 (as amended).  On the request of the web test, with implementation
    type "web" and both flags off, the call returns no issue and a
    dictionary of exactly ten present parameters: correlator,
    description_url, env, gdfp_req, iu, output, sz,
    unviewed_position_start, url and vpmute. *)
Theorem C3_web_request_ten_present (py : Env) :
  ∃ present,
    validate_vast_request py web_request (lit "web") false false
    = Some (present, [])
    ∧ size present = 10%nat
    ∧ dom present
      = list_to_set [lit "correlator"; lit "description_url"; lit "env";
                     lit "gdfp_req"; lit "iu"; lit "output"; lit "sz";
                     lit "unviewed_position_start"; lit "url"; lit "vpmute"].
Proof. exact (web_request_result py). Qed.

(** C3, as stated, fails: the dictionary of that call does not hold nine
    parameters. *)
Lemma C3_counterexample :
  ¬ ∃ present,
      validate_vast_request ascii_env web_request (lit "web") false false
      = Some (present, [])
      ∧ size present = 9%nat.
Proof.
  intros (present & Hval & Hsize).
  destruct (web_request_result ascii_env) as (m & Hm & Hten & _).
  rewrite Hm in Hval. injection Hval as <-. rewrite Hten in Hsize. discriminate.
Qed.

(** C8.  Whatever the request, the implementation type and the
    programmatic flag, the call returns both with and without decoding, and
    the two dictionaries of present parameters have the same names; and
    [unquote], as the validator calls it, raises on no value. *)
Theorem C8_decode_keeps_names (py : Env) (raw c : str) (is_programmatic : bool) :
  (∀ value, is_Some (unquote replace value))
  ∧ ∃ present issues present' issues',
      validate_vast_request py raw c is_programmatic false = Some (present, issues)
      ∧ validate_vast_request py raw c is_programmatic true = Some (present', issues')
      ∧ dom present = dom present'.
Proof.
  split; [exact unquote_replace_returns|].
  destruct (dict_get param_rules c) as [rules|] eqn:Hc.
  - destruct (validate_known py raw c rules is_programmatic false Hc)
      as (m & _ & Hdom & Hval).
    destruct (validate_known py raw c rules is_programmatic true Hc)
      as (m' & _ & Hdom' & Hval').
    eexists m, _, m', _. split; [exact Hval|]. split; [exact Hval'|].
    by rewrite Hdom, Hdom'.
  - unfold validate_vast_request. rewrite Hc.
    eexists _, _, _, _. split; [reflexivity|]. split; [reflexivity|]. done.
Qed.

(** C10.  For a known implementation type, every issue names a parameter
    declared in one of its three tiers; every name matched in the request is
    stored among the present parameters, declared or not; and a name that
    no tier declares is named by no issue. *)
Theorem C10_issues_name_declared (py : Env) (raw c : str) (rules : type_rules)
    (is_programmatic decode_params : bool) :
  dict_get param_rules c = Some rules →
  ∃ present issues,
    validate_vast_request py raw c is_programmatic decode_params
    = Some (present, issues)
    ∧ (∀ i, i ∈ issues → parameter i ∈ declared rules)
    ∧ (∀ name value, (name, value) ∈ finditer_params raw → name ∈ dom present)
    ∧ (∀ name, name ∉ declared rules → ∀ i, i ∈ issues → parameter i ≠ name).
Proof.
  intros Hc.
  destruct (validate_known py raw c rules is_programmatic decode_params Hc)
    as (present & _ & Hdom & Hval).
  exists present, (tiers rules is_programmatic ≫= tier_issues py present).
  split; [exact Hval|]. split; [|split].
  - intros i Hi. by destruct (elem_of_tiers_issues py _ _ _ _ Hi).
  - intros name value Hin. rewrite Hdom, elem_of_list_to_set.
    apply list_elem_of_fmap. by exists (name, value).
  - intros name Hname i Hi <-. apply Hname.
    by destruct (elem_of_tiers_issues py _ _ _ _ Hi).
Qed.

Lemma C10_issues_name_declared_witness :
  ∃ present issues,
    validate_vast_request ascii_env (lit "foo=1&correlator=x") (lit "web") false false
    = Some (present, issues)
    ∧ (∀ i, i ∈ issues → parameter i ∈ declared web_rules)
    ∧ (∀ name value, (name, value) ∈ finditer_params (lit "foo=1&correlator=x") →
         name ∈ dom present)
    ∧ (∀ name, name ∉ declared web_rules → ∀ i, i ∈ issues → parameter i ≠ name).
Proof.
  apply (C10_issues_name_declared ascii_env (lit "foo=1&correlator=x")
           (lit "web") web_rules false false).
  reflexivity.
Defined.

(** C1 (as amended).  For a known implementation type and a parameter of
    its programmatic-required tier: when the programmatic flag is false the
    tier is skipped and no issue names the parameter, whatever its value;
    when the flag is true and the parameter is present, the issues that
    name it are exactly those of the type check of its value. *)
Theorem C1_programmatic_required_checked_when_programmatic (py : Env)
    (raw c : str) (rules : type_rules) (decode_params : bool) (p : str) (r : rule) :
  dict_get param_rules c = Some rules →
  dict_get (programmatic_required rules) p = Some r →
  (∃ present issues,
     validate_vast_request py raw c false decode_params = Some (present, issues)
     ∧ issues_for p issues = [])
  ∧ (∃ present issues,
       validate_vast_request py raw c true decode_params = Some (present, issues)
       ∧ ∀ value, present !! p = Some value →
           issues_for p issues = validate_param py p r value []).
Proof.
  intros Hc Hp.
  pose proof (registry_nodup c rules Hc) as Hnd.
  destruct (declared_nodup_tiers rules Hnd) as (_ & _ & _ & D12 & _ & _).
  assert (dict_get (required rules) p = None) as Hreq.
  { destruct (dict_get (required rules) p) eqn:E; [|done].
    exfalso. apply dict_get_Some_key in E, Hp. by apply (D12 p E). }
  split.
  - destruct (validate_known py raw c rules false decode_params Hc)
      as (present & _ & _ & Hval).
    eexists _, _. split; [exact Hval|].
    by rewrite (issues_for_tiers py p present rules false Hnd), Hreq, Hp.
  - destruct (validate_known py raw c rules true decode_params Hc)
      as (present & _ & _ & Hval).
    eexists _, _. split; [exact Hval|]. intros value Hvalue.
    rewrite (issues_for_tiers py p present rules true Hnd), Hreq, Hp.
    by rewrite param_issues_eq, Hvalue.
Qed.

Lemma C1_programmatic_required_checked_when_programmatic_witness :
  (∃ present issues,
     validate_vast_request ascii_env (lit "plcmt=abc") (lit "web") false false
     = Some (present, issues)
     ∧ issues_for (lit "plcmt") issues = [])
  ∧ (∃ present issues,
       validate_vast_request ascii_env (lit "plcmt=abc") (lit "web") true false
       = Some (present, issues)
       ∧ ∀ value, present !! lit "plcmt" = Some value →
           issues_for (lit "plcmt") issues
           = validate_param ascii_env (lit "plcmt") Int value []).
Proof.
  apply (C1_programmatic_required_checked_when_programmatic ascii_env
           (lit "plcmt=abc") (lit "web") web_rules false (lit "plcmt") Int).
  - reflexivity.
  - reflexivity.
Defined.

(** C1, as stated, fails: with the programmatic flag off, the request
    [plcmt=abc] for "web" has the programmatic-required parameter plcmt
    present with a value its integer check rejects, and no issue names
    plcmt. *)
Lemma C1_counterexample :
  ∃ present issues,
    validate_vast_request ascii_env (lit "plcmt=abc") (lit "web") false false
    = Some (present, issues)
    ∧ dict_get (programmatic_required web_rules) (lit "plcmt") = Some Int
    ∧ present !! lit "plcmt" = Some (lit "abc")
    ∧ validate_param ascii_env (lit "plcmt") Int (lit "abc") []
      = [{| parameter := lit "plcmt"; type := lit "invalid";
            message := lit "Expected integer, got 'abc'" |}]
    ∧ issues_for (lit "plcmt") issues = [].
Proof.
  destruct (validate_known ascii_env (lit "plcmt=abc") (lit "web") web_rules
              false false) as (present & Hstore & _ & Hval); [reflexivity|].
  eexists _, _. split; [exact Hval|].
  vm_compute in Hstore. injection Hstore as <-.
  repeat split; vm_compute; reflexivity.
Qed.

(** C2 (as amended).  For a known implementation type and a parameter of
    its programmatic-recommended tier: when the parameter is absent from
    the present parameters, no issue names it; and every issue the call
    returns has type "invalid" or "missing", so the list holds no
    warning. *)
Theorem C2_recommended_absent_no_issue (py : Env) (raw c : str)
    (rules : type_rules) (is_programmatic decode_params : bool)
    (p : str) (r : rule) :
  dict_get param_rules c = Some rules →
  dict_get (programmatic_recommended rules) p = Some r →
  ∃ present issues,
    validate_vast_request py raw c is_programmatic decode_params
    = Some (present, issues)
    ∧ (present !! p = None → issues_for p issues = [])
    ∧ (∀ i, i ∈ issues → type i = lit "invalid" ∨ type i = lit "missing")
    ∧ warnings_of issues = [].
Proof.
  intros Hc Hp.
  pose proof (registry_nodup c rules Hc) as Hnd.
  destruct (declared_nodup_tiers rules Hnd) as (_ & _ & _ & _ & D13 & D23).
  destruct (validate_known py raw c rules is_programmatic decode_params Hc)
    as (present & _ & _ & Hval).
  eexists _, _. split; [exact Hval|].
  assert (∀ i, i ∈ tiers rules is_programmatic ≫= tier_issues py present →
               type i = lit "invalid" ∨ type i = lit "missing") as Htypes.
  { intros i Hi. by destruct (elem_of_tiers_issues py _ _ _ _ Hi). }
  split; [|split; [exact Htypes|]].
  - intros Habsent.
    rewrite (issues_for_tiers py p present rules is_programmatic Hnd), Hp.
    assert (dict_get (required rules) p = None) as ->.
    { destruct (dict_get (required rules) p) eqn:E; [|done].
      exfalso. apply dict_get_Some_key in E, Hp. by apply (D13 p E). }
    assert (dict_get (programmatic_required rules) p = None) as ->.
    { destruct (dict_get (programmatic_required rules) p) eqn:E; [|done].
      exfalso. apply dict_get_Some_key in E, Hp. by apply (D23 p E). }
    by rewrite param_issues_eq, Habsent.
  - by apply warnings_of_errors.
Qed.

Lemma C2_recommended_absent_no_issue_witness :
  ∃ present issues,
    validate_vast_request ascii_env web_request (lit "web") true false
    = Some (present, issues)
    ∧ (present !! lit "aconp" = None → issues_for (lit "aconp") issues = [])
    ∧ (∀ i, i ∈ issues → type i = lit "invalid" ∨ type i = lit "missing")
    ∧ warnings_of issues = [].
Proof.
  apply (C2_recommended_absent_no_issue ascii_env web_request (lit "web")
           web_rules true false (lit "aconp") Bool).
  - reflexivity.
  - reflexivity.
Defined.

(** C2, as stated, fails: the request of the web test lacks aconp, which
    the programmatic-recommended tier of "web" declares, and the call
    returns no issue at all. *)
Lemma C2_counterexample :
  ∃ present,
    validate_vast_request ascii_env web_request (lit "web") false false
    = Some (present, [])
    ∧ dict_get (programmatic_recommended web_rules) (lit "aconp") = Some Bool
    ∧ present !! lit "aconp" = None.
Proof.
  destruct (validate_known ascii_env web_request (lit "web") web_rules
              false false) as (present & Hstore & _ & Hval); [reflexivity|].
  exists present.
  vm_compute in Hstore. injection Hstore as <-.
  split; [|split].
  - rewrite Hval. vm_compute. reflexivity.
  - reflexivity.
  - vm_compute. reflexivity.
Qed.

(** C7 (as amended).  The empty check of [validate_param] comes first and
    is the only one made on an empty value, whatever the rule.  In a call
    for a known implementation type, a parameter declared in a tier the call
    evaluates (required, programmatic-recommended, or programmatic-required
    when the programmatic flag is true) and present with the empty value
    gets exactly one issue, the one of type "invalid" with message
    "Parameter value is empty". *)
Theorem C7_empty_value_invalid (py : Env) (raw c : str) (rules : type_rules)
    (is_programmatic decode_params : bool) (p : str) (r : rule) :
  dict_get param_rules c = Some rules →
  dict_get (required rules) p = Some r
  ∨ (is_programmatic = true ∧ dict_get (programmatic_required rules) p = Some r)
  ∨ dict_get (programmatic_recommended rules) p = Some r →
  (∀ rules' errors,
     validate_param py p rules' [] errors = errors ++ [empty_value_issue p])
  ∧ ∃ present issues,
      validate_vast_request py raw c is_programmatic decode_params
      = Some (present, issues)
      ∧ (present !! p = Some ([] : str) → issues_for p issues = [empty_value_issue p]).
Proof.
  intros Hc Hp. split; [done|].
  pose proof (registry_nodup c rules Hc) as Hnd.
  destruct (declared_nodup_tiers rules Hnd) as (_ & _ & _ & D12 & D13 & D23).
  destruct (validate_known py raw c rules is_programmatic decode_params Hc)
    as (present & _ & _ & Hval).
  eexists _, _. split; [exact Hval|]. intros Hempty.
  rewrite (issues_for_tiers py p present rules is_programmatic Hnd).
  destruct Hp as [Hp|[[-> Hp]|Hp]].
  - rewrite Hp. cbv beta iota. by rewrite param_issues_eq, Hempty.
  - assert (dict_get (required rules) p = None) as ->.
    { destruct (dict_get (required rules) p) eqn:E; [|done].
      exfalso. apply dict_get_Some_key in E, Hp. by apply (D12 p E). }
    rewrite Hp. cbv beta iota. by rewrite param_issues_eq, Hempty.
  - assert (dict_get (required rules) p = None) as ->.
    { destruct (dict_get (required rules) p) eqn:E; [|done].
      exfalso. apply dict_get_Some_key in E, Hp. by apply (D13 p E). }
    assert (dict_get (programmatic_required rules) p = None) as ->.
    { destruct (dict_get (programmatic_required rules) p) eqn:E; [|done].
      exfalso. apply dict_get_Some_key in E, Hp. by apply (D23 p E). }
    rewrite Hp. cbv beta iota. by rewrite param_issues_eq, Hempty.
Qed.

Lemma C7_empty_value_invalid_witness :
  (∀ rules' errors,
     validate_param ascii_env (lit "sz") rules' [] errors
     = errors ++ [empty_value_issue (lit "sz")])
  ∧ ∃ present issues,
      validate_vast_request ascii_env (lit "sz=&env=vp") (lit "web") false false
      = Some (present, issues)
      ∧ (present !! lit "sz" = Some ([] : str) →
         issues_for (lit "sz") issues = [empty_value_issue (lit "sz")]).
Proof.
  apply (C7_empty_value_invalid ascii_env (lit "sz=&env=vp") (lit "web")
           web_rules false false (lit "sz") Size).
  - reflexivity.
  - left. reflexivity.
Defined.

(** C7, as stated, fails: with the programmatic flag off, the request
    [plcmt=] for "web" has the declared parameter plcmt present with the
    empty value, and no issue names plcmt. *)
Lemma C7_counterexample :
  ∃ present issues,
    validate_vast_request ascii_env (lit "plcmt=") (lit "web") false false
    = Some (present, issues)
    ∧ dict_get (programmatic_required web_rules) (lit "plcmt") = Some Int
    ∧ present !! lit "plcmt" = Some ([] : str)
    ∧ issues_for (lit "plcmt") issues = [].
Proof.
  destruct (validate_known ascii_env (lit "plcmt=") (lit "web") web_rules
              false false) as (present & Hstore & _ & Hval); [reflexivity|].
  eexists _, _. split; [exact Hval|].
  vm_compute in Hstore. injection Hstore as <-.
  repeat split; vm_compute; reflexivity.
Qed.

Lemma dict_get_app {V} (d1 d2 : list (str * V)) key :
  dict_get (d1 ++ d2) key
  = match dict_get d1 key with Some v => Some v | None => dict_get d2 key end.
Proof.
  induction d1 as [|[k v] rest IH]; [done|].
  cbn [app dict_get]. by case_bool_decide.
Qed.

(** C9.  A rule of type "str" has no check beyond the empty one: on a
    non-empty value [validate_param] adds nothing.  In a call for a known
    implementation type, a parameter declared with type "str" and present
    with a non-empty value is named by no issue, and an issue of type
    "invalid" that names such a parameter is the one of the empty check, the
    value being empty. *)
Theorem C9_str_only_empty_check (py : Env) (raw c : str) (rules : type_rules)
    (is_programmatic decode_params : bool) (p : str) :
  dict_get param_rules c = Some rules →
  dict_get (all_items rules) p = Some Str →
  (∀ value errors, value ≠ [] → validate_param py p Str value errors = errors)
  ∧ ∃ present issues,
      validate_vast_request py raw c is_programmatic decode_params
      = Some (present, issues)
      ∧ (∀ value, present !! p = Some value → value ≠ [] →
           issues_for p issues = [])
      ∧ (∀ i, i ∈ issues → parameter i = p → type i = lit "invalid" →
           present !! p = Some ([] : str) ∧ i = empty_value_issue p).
Proof.
  intros Hc Hp.
  assert (∀ value errors, value ≠ [] →
            validate_param py p Str value errors = errors) as Hstr.
  { intros value errors Hne. unfold validate_param. by rewrite bool_decide_false. }
  split; [exact Hstr|].
  pose proof (registry_nodup c rules Hc) as Hnd.
  destruct (validate_known py raw c rules is_programmatic decode_params Hc)
    as (present & _ & _ & Hval).
  eexists _, _. split; [exact Hval|].
  pose proof (issues_for_tiers py p present rules is_programmatic Hnd) as Hfor.
  unfold all_items in Hp. rewrite !dict_get_app in Hp.
  assert (∀ msg req i,
            i ∈ param_issues py present msg req (p, Str) →
            (∀ value, present !! p = Some value → value ≠ [] → False)
            ∧ (type i = lit "invalid" →
               present !! p = Some ([] : str) ∧ i = empty_value_issue p)) as Hitem.
  { intros msg req i. rewrite param_issues_eq.
    destruct (present !! p) as [value|] eqn:Hv.
    - destruct (decide (value = [])) as [->|Hne].
      + intros ->%list_elem_of_singleton. split; [|done].
        by intros value [= <-] Hne.
      + rewrite Hstr by done. by intros ?%elem_of_nil.
    - destruct req; [|by intros ?%elem_of_nil].
      intros ->%list_elem_of_singleton. split; [done|]. intros [=]. }
  assert (∀ i, i ∈ issues_for p
                     (tiers rules is_programmatic ≫= tier_issues py present) →
            (∀ value, present !! p = Some value → value ≠ [] → False)
            ∧ (type i = lit "invalid" →
               present !! p = Some ([] : str) ∧ i = empty_value_issue p)) as Hall.
  { intros i. rewrite Hfor.
    destruct (dict_get (required rules) p) as [r1|];
      [injection Hp as ->; apply Hitem|].
    destruct (dict_get (programmatic_required rules) p) as [r2|].
    { injection Hp as ->. destruct is_programmatic; [apply Hitem|].
      by intros ?%elem_of_nil. }
    destruct (dict_get (programmatic_recommended rules) p) as [r3|]; [|done].
    injection Hp as ->. apply Hitem. }
  split.
  - intros value Hvalue Hne.
    destruct (issues_for p _) as [|i l] eqn:E; [done|].
    exfalso. apply (proj1 (Hall i ltac:(left)) value Hvalue Hne).
  - intros i Hi Hname. apply Hall. unfold issues_for.
    by apply list_elem_of_filter.
Qed.

Lemma C9_str_only_empty_check_witness :
  (∀ value errors, value ≠ [] →
     validate_param ascii_env (lit "iu") Str value errors = errors)
  ∧ ∃ present issues,
      validate_vast_request ascii_env web_request (lit "web") false false
      = Some (present, issues)
      ∧ (∀ value, present !! lit "iu" = Some value → value ≠ [] →
           issues_for (lit "iu") issues = [])
      ∧ (∀ i, i ∈ issues → parameter i = lit "iu" → type i = lit "invalid" →
           present !! lit "iu" = Some ([] : str) ∧ i = empty_value_issue (lit "iu")).
Proof.
  apply (C9_str_only_empty_check ascii_env web_request (lit "web") web_rules
           false false (lit "iu")).
  - reflexivity.
  - reflexivity.
Defined.

(** *** The size pattern *)

Lemma span_eq (p : N → bool) (s a b : str) :
  span p s = (a, b) →
  s = a ++ b ∧ Forall (λ c, p c = true) a
  ∧ (b = [] ∨ ∃ c r, b = c :: r ∧ p c = false).
Proof.
  intros H.
  pose proof (span_app p s) as H1. pose proof (span_fst_Forall p s) as H2.
  pose proof (span_snd_head p s) as H3. rewrite H in H1, H2, H3. simpl in *.
  split; [done|]. split; [done|].
  destruct b as [|c r]; [by left|]. right. exists c, r. split; [done|].
  by apply (H3 c r).
Qed.

(** The values the size pattern matches: decimal digits, an [x], decimal
    digits, and possibly one final line feed. *)
Lemma match_size_iff (py : Env) (value : str) :
  match_size py value = true ↔
  ∃ w h : str,
    Forall (λ c, isdecimal py c = true) w ∧ Forall (λ c, isdecimal py c = true) h
    ∧ w ≠ [] ∧ h ≠ []
    ∧ (value = w ++ [120] ++ h ∨ value = w ++ [120] ++ h ++ [10]).
Proof.
  unfold match_size. split.
  - destruct (span (isdecimal py) value) as [w r1] eqn:Hw.
    apply span_eq in Hw as (-> & Fw & _).
    destruct w as [|c0 w]; [done|]. destruct r1 as [|c r2]; [done|].
    destruct (N.eqb_spec c 120) as [->|]; [|done].
    destruct (span (isdecimal py) r2) as [h r3] eqn:Hh.
    apply span_eq in Hh as (-> & Fh & _).
    destruct h as [|d0 h]; [done|].
    destruct r3 as [|c' [|]]; [| |done].
    + intros _. exists (c0 :: w), (d0 :: h).
      repeat split; try done. left. by rewrite app_nil_r.
    + intros ->%N.eqb_eq. exists (c0 :: w), (d0 :: h).
      repeat split; try done. by right.
  - intros (w & h & Fw & Fh & Hw & Hh & Hv).
    assert (∃ t, value = w ++ 120 :: h ++ t ∧ (t = [] ∨ t = [10])) as (t & -> & Ht).
    { destruct Hv as [->| ->]; [exists []|exists [10]].
      - split; [by rewrite app_nil_r|by left].
      - split; [done|by right]. }
    rewrite (span_unique (isdecimal py) w (120 :: h ++ t)); [|done|].
    2: { right. by exists 120, (h ++ t). }
    destruct w as [|c0 w]; [done|]. cbn [N.eqb Pos.eqb].
    rewrite (span_unique (isdecimal py) h t); [|done|].
    2: { destruct Ht as [->| ->]; [by left|]. right. by exists 10, []. }
    destruct h as [|d0 h]; [done|].
    by destruct Ht as [->| ->].
Qed.

(** C5 (as amended).  A value checked against the size rule passes, that
    is [validate_param] adds no issue, exactly when it is one or more
    decimal digits, a lowercase x, one or more decimal digits, and
    optionally one final line feed; the decimal digits are those of the
    pattern class [\d], the ASCII digits and the other characters the
    interpreter's Unicode database classifies as decimal. *)
Theorem C5_size_accepts (py : Env) (p value : str) :
  validate_param py p Size value [] = [] ↔
  ∃ w h : str,
    Forall (λ c, isdecimal py c = true) w ∧ Forall (λ c, isdecimal py c = true) h
    ∧ w ≠ [] ∧ h ≠ []
    ∧ (value = w ++ [120] ++ h ∨ value = w ++ [120] ++ h ++ [10]).
Proof.
  rewrite <- match_size_iff. unfold validate_param.
  case_bool_decide as Hv.
  - subst value. split; [done|]. by vm_compute.
  - destruct (match_size py value); simpl; split; done.
Qed.

(** C5, as stated, fails: a value with a line feed after the digits passes
    the size check, and so does one written with Arabic-Indic digits under
    a Unicode database that knows them. *)
Lemma C5_counterexample :
  validate_param ascii_env (lit "sz") Size (lit "640x480" ++ [10]) [] = []
  ∧ validate_param sample_env (lit "sz") Size
      [1638; 1636; 1632; 120; 1636; 1640; 1632] [] = [].
Proof. split; vm_compute; reflexivity. Qed.

(** *** Integer literals *)

Section IntLiteral.
Variable py : Env.

Lemma ascii_digit_bounds c : is_ascii_digit c = true ↔ 48 ≤ c ∧ c ≤ 57.
Proof.
  unfold is_ascii_digit. rewrite andb_true_iff, !N.leb_le. done.
Qed.

Lemma py_isspace_bounds c : py_isspace c = true ↔ (9 ≤ c ∧ c ≤ 13) ∨ c = 32.
Proof.
  unfold py_isspace. rewrite orb_true_iff, andb_true_iff, !N.leb_le, N.eqb_eq.
  done.
Qed.

Lemma int_digit_cases c :
  int_digit py c = true → (48 ≤ c ∧ c ≤ 57) ∨ 128 ≤ c.
Proof.
  unfold int_digit, is_ascii. destruct (c <? 128) eqn:E.
  - rewrite ascii_digit_bounds. by left.
  - intros _. right. by apply N.ltb_ge.
Qed.

Lemma int_space_cases c :
  int_space py c = true → (9 ≤ c ∧ c ≤ 13) ∨ c = 32 ∨ 128 ≤ c.
Proof.
  unfold int_space, is_ascii. destruct (c <? 128) eqn:E.
  - rewrite py_isspace_bounds. tauto.
  - intros _. right. right. by apply N.ltb_ge.
Qed.

Lemma int_digit_not_space c : int_digit py c = true → int_space py c = false.
Proof.
  unfold int_digit, int_space. destruct (is_ascii c).
  - rewrite ascii_digit_bounds. intros H.
    destruct (py_isspace c) eqn:E; [|done].
    apply py_isspace_bounds in E. lia.
  - intros [H _]%andb_true_iff. by apply negb_true_iff in H.
Qed.

Lemma int_space_not_digit c : int_space py c = true → int_digit py c = false.
Proof.
  intros H. destruct (int_digit py c) eqn:E; [|done].
  apply int_digit_not_space in E. congruence.
Qed.

(** The transformation to ASCII keeps the reading of white space. *)
Lemma span_space_transform (v : str) :
  (span py_isspace (transform_decimal_and_space_to_ascii py v)).2
  = transform_decimal_and_space_to_ascii py (span (int_space py) v).2.
Proof.
  induction v as [|c r IH]; [done|].
  cbn [transform_decimal_and_space_to_ascii span]. unfold int_space at 1.
  destruct (is_ascii c) eqn:Hc.
  - cbn [span]. destruct (py_isspace c).
    + destruct (span py_isspace _), (span (int_space py) r). exact IH.
    + cbn. by rewrite Hc.
  - destruct (unicode_isspace py c) eqn:Hs.
    + cbn [span]. replace (py_isspace 32) with true by done.
      destruct (span py_isspace _), (span (int_space py) r). exact IH.
    + destruct (unicode_todecimal py c) as [d|] eqn:Hd.
      * cbn [span].
        assert (py_isspace (48 + N.of_nat (fin_to_nat d)) = false) as ->.
        { destruct (py_isspace _) eqn:E; [|done].
          apply py_isspace_bounds in E. lia. }
        cbn. by rewrite Hc, Hs, Hd.
      * cbn. by rewrite Hc, Hs, Hd.
Qed.

Lemma transform_nil_iff (v : str) :
  transform_decimal_and_space_to_ascii py v = [] ↔ v = [].
Proof.
  destruct v as [|c r]; [done|]. cbn.
  destruct (is_ascii c); [done|]. destruct (unicode_isspace py c); [done|].
  by destruct (unicode_todecimal py c).
Qed.

(** The head of a transformed string is a sign only where the value has
    that sign. *)
Lemma sign_transform (s1 : str) :
  match transform_decimal_and_space_to_ascii py s1 with
  | c :: r => if c =? 43 then r else if c =? 45 then r
              else transform_decimal_and_space_to_ascii py s1
  | [] => transform_decimal_and_space_to_ascii py s1
  end
  = transform_decimal_and_space_to_ascii py
      match s1 with
      | c :: r => if c =? 43 then r else if c =? 45 then r else s1
      | [] => s1
      end.
Proof.
  destruct s1 as [|c r]; [done|].
  cbn [transform_decimal_and_space_to_ascii].
  destruct (is_ascii c) eqn:Hc.
  - destruct (c =? 43); [done|]. destruct (c =? 45); [done|].
    cbn. by rewrite Hc.
  - assert (128 ≤ c) as Hge by (by apply N.ltb_ge).
    assert ((c =? 43) = false) as -> by (apply N.eqb_neq; lia).
    assert ((c =? 45) = false) as -> by (apply N.eqb_neq; lia).
    cbn [transform_decimal_and_space_to_ascii]. rewrite Hc.
    destruct (unicode_isspace py c); [done|].
    destruct (unicode_todecimal py c) as [d|]; [|done].
    assert ((48 + N.of_nat (fin_to_nat d) =? 43) = false) as ->
      by (apply N.eqb_neq; lia).
    assert ((48 + N.of_nat (fin_to_nat d) =? 45) = false) as ->
      by (apply N.eqb_neq; lia).
    done.
Qed.

(** The scan over the transformed string stops where the scan over the
    value stops, with the same number of digits. *)
Lemma scan_transform (s : str) acc digits prev :
  (λ x, (x.1.2, x.2))
    <$> scan_digits acc digits prev (transform_decimal_and_space_to_ascii py s)
  = (λ x, (x.1, transform_decimal_and_space_to_ascii py x.2))
      <$> scan py prev digits s.
Proof.
  revert acc digits prev. induction s as [|c r IH]; intros acc digits prev.
  - cbn. by destruct prev.
  - cbn [transform_decimal_and_space_to_ascii scan].
    destruct (is_ascii c) eqn:Hc.
    + assert (int_digit py c = is_ascii_digit c) as ->
        by (unfold int_digit; by rewrite Hc).
      cbn [scan_digits]. destruct (is_ascii_digit c); [apply IH|].
      destruct (c =? 95).
      * destruct prev; try done; apply IH.
      * destruct prev; try done. cbn. by rewrite Hc.
    + assert (128 ≤ c) as Hge by (by apply N.ltb_ge).
      assert ((c =? 95) = false) as -> by (apply N.eqb_neq; lia).
      destruct (unicode_isspace py c) eqn:Hs.
      * assert (int_digit py c = false) as ->
          by (unfold int_digit; by rewrite Hc, Hs).
        cbn. destruct prev; try done. cbn. by rewrite Hc, Hs.
      * destruct (unicode_todecimal py c) as [d|] eqn:Hd.
        -- assert (int_digit py c = true) as ->
             by (unfold int_digit, isdecimal; by rewrite Hc, Hs, Hd).
           cbn [scan_digits].
           assert (is_ascii_digit (48 + N.of_nat (fin_to_nat d)) = true) as ->.
           { apply ascii_digit_bounds. pose proof (fin_to_nat_lt d). lia. }
           apply IH.
        -- assert (int_digit py c = false) as ->
             by (unfold int_digit, isdecimal; by rewrite Hc, Hs, Hd).
           cbn. destruct prev; try done. cbn. by rewrite Hc, Hs, Hd.
Qed.

(** [int] returns exactly on the values [int_accepts] accepts within the
    digit limit. *)
Lemma int_is_Some_iff (value : str) :
  is_Some (int py value) ↔
  ∃ n, int_accepts py value = Some n ∧ exceeds_max_str_digits py n = false.
Proof.
  unfold int, long_from_string, int_accepts.
  pose proof (span_space_transform value) as H1.
  destruct (span py_isspace (transform_decimal_and_space_to_ascii py value))
    as [w1 s1'] eqn:E1.
  cbn [snd] in H1. subst s1'.
  pose proof (sign_transform (span (int_space py) value).2) as H2.
  set (s1 := (span (int_space py) value).2) in *.
  set (s2 := match s1 with
             | c :: r => if c =? 43 then r else if c =? 45 then r else s1
             | [] => s1
             end) in *.
  assert (∃ negative,
            match transform_decimal_and_space_to_ascii py s1 with
            | c :: r => if c =? 43 then (false, r)
                        else if c =? 45 then (true, r)
                        else (false, transform_decimal_and_space_to_ascii py s1)
            | [] => (false, transform_decimal_and_space_to_ascii py s1)
            end = (negative, transform_decimal_and_space_to_ascii py s2))
    as [negative ->].
  { rewrite <- H2. destruct (transform_decimal_and_space_to_ascii py s1) as [|c r];
      [by eexists|].
    destruct (c =? 43); [by eexists|]. destruct (c =? 45); by eexists. }
  pose proof (scan_transform s2 0%Z 0 PrevNone) as H3.
  destruct (scan_digits 0 0 PrevNone (transform_decimal_and_space_to_ascii py s2))
    as [[[z n'] r']|], (scan py PrevNone 0 s2) as [[n r]|]; try done.
  - cbn in H3. injection H3 as -> ->.
    pose proof (span_space_transform r) as H4.
    destruct (span py_isspace (transform_decimal_and_space_to_ascii py r))
      as [w2 s4'] eqn:E4.
    cbn [snd] in H4. subst s4'.
    destruct ((span (int_space py) r).2) as [|c4 r4] eqn:E5.
    + cbn. destruct (exceeds_max_str_digits py n) eqn:El.
      * split; [by intros [? ?]|]. intros (m & [= <-] & Hm). congruence.
      * split; [|by eexists]. intros _. by exists n.
    + destruct (transform_decimal_and_space_to_ascii py (c4 :: r4)) eqn:E6.
      { apply (proj1 (transform_nil_iff _)) in E6. discriminate. }
      split; [by intros [? ?]|]. by intros (m & ? & _).
  - split; [by intros [? ?]|]. by intros (m & ? & _).
Qed.

Lemma count_digits_digit d s :
  int_digit py d = true → count_digits py (d :: s) = 1 + count_digits py s.
Proof. unfold count_digits. cbn [List.filter]. intros ->. cbn [length]. lia. Qed.

Lemma count_digits_underscore s :
  count_digits py (95 :: s) = count_digits py s.
Proof. done. Qed.

(** Where a scan that has read a digit may stop: at the end, or before a
    character that is neither a digit nor an underscore. *)
Lemma scan_complete (t r : str) k :
  digit_tail py t →
  (r = [] ∨ ∃ c r', r = c :: r' ∧ int_digit py c = false ∧ c ≠ 95) →
  scan py PrevDigit k (t ++ r) = Some (k + count_digits py t, r).
Proof.
  intros Ht Hr. revert k. induction Ht as [|d s Hd Hs IH|d s Hd Hs IH]; intros k.
  - cbn [app]. replace (k + count_digits py []) with k by (unfold count_digits; cbn; lia).
    destruct Hr as [->|(c & r' & -> & Hc & Hne)]; [done|].
    cbn [scan]. rewrite Hc. apply N.eqb_neq in Hne. by rewrite Hne.
  - cbn [app scan]. rewrite Hd, IH, count_digits_digit by done.
    do 2 f_equal. lia.
  - cbn [app scan]. replace (int_digit py 95) with false by done.
    cbn [N.eqb Pos.eqb scan]. rewrite Hd, IH, count_digits_underscore.
    rewrite count_digits_digit by done. do 2 f_equal. lia.
Qed.

Lemma scan_sound (s : str) :
  ∀ k n r,
    (scan py PrevDigit k s = Some (n, r) →
     ∃ t, s = t ++ r ∧ digit_tail py t ∧ n = k + count_digits py t
          ∧ (r = [] ∨ ∃ c r', r = c :: r' ∧ int_digit py c = false ∧ c ≠ 95))
    ∧ (scan py PrevUnderscore k s = Some (n, r) →
       ∃ d t, s = d :: t ++ r ∧ int_digit py d = true ∧ digit_tail py t
              ∧ n = k + 1 + count_digits py t
              ∧ (r = [] ∨ ∃ c r', r = c :: r' ∧ int_digit py c = false ∧ c ≠ 95)).
Proof.
  induction s as [|c s IH]; intros k n r.
  - split; [|done]. intros [= <- <-]. exists []. repeat split.
    + constructor.
    + unfold count_digits. cbn. lia.
    + by left.
  - cbn [scan]. destruct (int_digit py c) eqn:Hc.
    + split; intros H; apply IH in H as (t & -> & Ht & -> & Hr).
      * exists (c :: t). repeat split; [by constructor| |done].
        rewrite count_digits_digit by done. lia.
      * exists c, t. repeat split; done.
    + destruct (N.eqb_spec c 95) as [->|Hne].
      * split; [|done]. intros H.
        apply IH in H as (d & t & -> & Hd & Ht & -> & Hr).
        exists (95 :: d :: t). repeat split; [by constructor| |done].
        rewrite count_digits_underscore, count_digits_digit by done. lia.
      * split; [|done]. intros [= <- <-]. exists []. repeat split.
        -- constructor.
        -- unfold count_digits. cbn. lia.
        -- right. by exists c, s.
Qed.

(** What [int_accepts] requires after the sign. *)
Lemma accepts_after_sign (s2 : str) n :
  match scan py PrevNone 0 s2 with
  | Some (digits, s3) =>
    match (span (int_space py) s3).2 with
    | [] => Some digits
    | _ :: _ => None
    end
  | None => None
  end = Some n →
  ∃ d tail ws2,
    s2 = (d :: tail) ++ ws2 ∧ Forall (λ c, int_space py c = true) ws2
    ∧ int_digit py d = true ∧ digit_tail py tail
    ∧ n = 1 + count_digits py tail.
Proof.
  destruct (scan py PrevNone 0 s2) as [[m s3]|] eqn:E2; [|done].
  destruct s2 as [|d s2']; [done|]. cbn [scan] in E2.
  destruct (int_digit py d) eqn:Hd.
  2: { by destruct (d =? 95). }
  apply scan_sound in E2 as (t & -> & Ht & -> & _).
  destruct (span (int_space py) s3) as [w r3] eqn:E3.
  apply span_eq in E3 as (-> & F3 & _). cbn [snd].
  destruct r3; [|done]. intros [= <-].
  exists d, t, (w ++ []). rewrite app_nil_r.
  repeat split; try done; lia.
Qed.

(** The literals [int_accepts] accepts, with their number of digits. *)
Lemma int_accepts_iff (value : str) n :
  int_accepts py value = Some n ↔
  ∃ ws1 sign d tail ws2,
    value = ws1 ++ sign ++ (d :: tail) ++ ws2
    ∧ Forall (λ c, int_space py c = true) ws1
    ∧ Forall (λ c, int_space py c = true) ws2
    ∧ (sign = [] ∨ sign = [43] ∨ sign = [45])
    ∧ int_digit py d = true ∧ digit_tail py tail
    ∧ n = 1 + count_digits py tail.
Proof.
  unfold int_accepts. split.
  - destruct (span (int_space py) value) as [ws1 s1] eqn:E1.
    apply span_eq in E1 as (-> & F1 & _). cbn [snd].
    destruct s1 as [|c r]; [done|].
    destruct (N.eqb_spec c 43) as [->|H43];
      [|destruct (N.eqb_spec c 45) as [->|H45]];
      intros (d & tail & ws2 & Hs & F2 & Hd & Ht & ->)%accepts_after_sign.
    + exists ws1, [43], d, tail, ws2. rewrite Hs. repeat split; try done. tauto.
    + exists ws1, [45], d, tail, ws2. rewrite Hs. repeat split; try done. tauto.
    + exists ws1, [], d, tail, ws2. rewrite Hs. repeat split; try done. tauto.
  - intros (ws1 & sign & d & tail & ws2 & -> & F1 & F2 & Hsign & Hd & Ht & ->).
    pose proof (int_digit_cases d Hd) as Hdc.
    rewrite (span_unique (int_space py) ws1 (sign ++ (d :: tail) ++ ws2)); [|done|].
    2: { right. destruct Hsign as [->|[->| ->]].
         - exists d, (tail ++ ws2). split; [done|]. by apply int_digit_not_space.
         - by exists 43, ((d :: tail) ++ ws2).
         - by exists 45, ((d :: tail) ++ ws2). }
    cbv zeta. cbn [snd].
    assert (scan py PrevNone 0 (d :: tail ++ ws2)
            = Some (1 + count_digits py tail, ws2)) as Hscan.
    { cbn [scan]. rewrite Hd. apply (scan_complete tail ws2 (0 + 1) Ht).
      destruct F2 as [|c ws2 Hc F2]; [by left|]. right. exists c, ws2.
      split; [done|]. split; [by apply int_space_not_digit|].
      apply int_space_cases in Hc. lia. }
    assert ((span (int_space py) ws2).2 = []) as Hend.
    { replace ws2 with (ws2 ++ []) at 1 by apply app_nil_r.
      by rewrite (span_unique (int_space py) ws2 []); [|done|left]. }
    destruct Hsign as [->|[->| ->]]; cbn [app].
    + assert ((d =? 43) = false) as -> by (apply N.eqb_neq; lia).
      assert ((d =? 45) = false) as -> by (apply N.eqb_neq; lia).
      by rewrite Hscan, Hend.
    + cbn [N.eqb Pos.eqb]. by rewrite Hscan, Hend.
    + cbn [N.eqb Pos.eqb]. by rewrite Hscan, Hend.
Qed.

(** [int] returns exactly on the integer literals. *)
Lemma int_is_Some_literal (value : str) :
  is_Some (int py value) ↔ int_literal py value.
Proof.
  rewrite int_is_Some_iff. unfold int_literal. split.
  - intros (n & Hn & Hlim). apply int_accepts_iff in Hn
      as (ws1 & sign & d & tail & ws2 & Hv & F1 & F2 & Hs & Hd & Ht & ->).
    by exists ws1, sign, d, tail, ws2.
  - intros (ws1 & sign & d & tail & ws2 & Hv & F1 & F2 & Hs & Hd & Ht & Hlim).
    exists (1 + count_digits py tail). split; [|done].
    apply int_accepts_iff. by exists ws1, sign, d, tail, ws2.
Qed.

End IntLiteral.

(** C4 (as amended).  A value checked against the integer rule passes, that
    is [validate_param] adds no issue, exactly when it is an integer literal
    of [int]: optional white space, an optional sign, decimal digits with
    single underscores allowed between them, optional white space, and no
    more digits than the interpreter's limit on integer strings allows
    (the limit applies from 641 digits on; 0 switches it off).  Leading
    zeros are digits like any other. *)
Theorem C4_int_accepts_literals (py : Env) (p value : str) :
  validate_param py p Int value [] = [] ↔ int_literal py value.
Proof.
  rewrite <- int_is_Some_literal. unfold validate_param.
  case_bool_decide as Hv.
  - subst value. split; [done|]. by intros [z Hz].
  - destruct (int py value) as [z|]; split; try done; by intros [z' Hz].
Qed.

(** C4, as stated, fails: the integer check accepts a value with white
    space around the digits, and one with an underscore between digits. *)
Lemma C4_counterexample :
  validate_param ascii_env (lit "correlator") Int (lit " 12 ") [] = []
  ∧ int ascii_env (lit " 12 ") = Some 12%Z
  ∧ validate_param ascii_env (lit "correlator") Int (lit "1_000") [] = []
  ∧ int ascii_env (lit "1_000") = Some 1000%Z.
Proof. repeat split; vm_compute; reflexivity. Qed.

(** Under CPython's default limit of 4300 digits, a longer digit string is
    rejected: large magnitudes are accepted only within the limit. *)
Example int_digit_limit :
  is_Some (int ascii_env (replicate 4300 49))
  ∧ int ascii_env (replicate 4301 49) = None
  ∧ validate_param ascii_env (lit "correlator") Int (replicate 4301 49) [] ≠ [].
Proof.
  split; [|split].
  - vm_compute. by eexists.
  - vm_compute. reflexivity.
  - vm_compute. discriminate.
Qed.

(** Leading zeros and signs are accepted. *)
Example int_leading_zeros :
  int ascii_env (lit "-0012") = Some (-12)%Z
  ∧ int ascii_env (lit "+7") = Some 7%Z
  ∧ int ascii_env (lit "12abc") = None
  ∧ int ascii_env (lit "1__0") = None
  ∧ int ascii_env (lit "_1") = None
  ∧ int ascii_env (lit "- 1") = None.
Proof. repeat split; vm_compute; reflexivity. Qed.

(** ** The repository's tests, replayed on the model *)

(** [test_validate_url_valid] and [test_validate_url_invalid]. *)
Example test_validate_url (py : Env) :
  validate_url py (lit "http://example.com") = true
  ∧ validate_url py (lit "https://example.com/path?query=value") = true
  ∧ validate_url py (lit "not a url") = false
  ∧ validate_url py (lit "example.com") = false
  ∧ validate_url py (lit "ftp://example.com") = false.
Proof. repeat split; vm_compute; reflexivity. Qed.

(** [test_validate_vast_request_web_missing_required]: without vpmute the
    one issue is the missing vpmute. *)
Example test_web_missing_required (py : Env) :
  snd <$> validate_vast_request py
            (lit "correlator=123&description_url=http://example.com&env=vp&gdfp_req=1&iu=/123/example&output=vast&sz=640x480&unviewed_position_start=1&url=http://example.com")
            (lit "web") false false
  = Some [{| parameter := lit "vpmute"; type := lit "missing";
             message := lit "Missing required parameter" |}].
Proof. vm_compute. reflexivity. Qed.

(** [test_validate_vast_request_web_invalid_param_type]: correlator=abc
    gives one issue, which says an integer was expected. *)
Example test_web_invalid_param_type (py : Env) :
  snd <$> validate_vast_request py
            (lit "correlator=abc&description_url=http://example.com&env=vp&gdfp_req=1&iu=/123/example&output=vast&sz=640x480&unviewed_position_start=1&url=http://example.com&vpmute=0")
            (lit "web") false false
  = Some [{| parameter := lit "correlator"; type := lit "invalid";
             message := lit "Expected integer, got 'abc'" |}].
Proof. vm_compute. reflexivity. Qed.

(** [test_validate_vast_request_ctv_programmatic_required]: no issue,
    although no recommended parameter is given. *)
Example test_ctv_programmatic_required (py : Env) :
  snd <$> validate_vast_request py
            (lit "correlator=123&env=vp&gdfp_req=1&iu=/123/example&output=vast&sz=640x480&url=http://example.com&idtype=1&is_lat=0&ott_placement=1&plcmt=2&rdid=test_rdid&vpa=1&vpmute=0")
            (lit "ctv") true false
  = Some [].
Proof. vm_compute. reflexivity. Qed.

(** Decoding: percent escapes become characters, a malformed escape stays
    as it is, and bytes that are not UTF-8 become U+FFFD. *)
Example test_unquote :
  unquote replace (lit "a%20b%2Fc") = Some (lit "a b/c")
  ∧ unquote replace (lit "100%") = Some (lit "100%")
  ∧ unquote replace (lit "%zz") = Some (lit "%zz")
  ∧ unquote replace (lit "%E2%82%AC") = Some [8364]
  ∧ unquote replace (lit "%FF%41") = Some [65533; 65]
  ∧ unquote replace (lit "%E2%82") = Some [65533]
  ∧ unquote strict (lit "%FF") = None.
Proof. repeat split; vm_compute; reflexivity. Qed.

(** Digits beyond ASCII: [int] reads Arabic-Indic digits under a database
    that knows them. *)
Example test_int_unicode_digits :
  int sample_env [1633; 1634] = Some 12%Z
  ∧ int sample_env [160; 49; 160] = Some 1%Z
  ∧ int ascii_env [1633; 1634] = None.
Proof. repeat split; vm_compute; reflexivity. Qed.

(** ** Further properties *)

(** ** Further properties of the validator *)

(** *** The matches of a request *)

(** [finditer_params] unfolded once. *)
Lemma finditer_params_cons (c : N) (r : str) :
  finditer_params (c :: r)
  = match match_param (c :: r) with
    | Some (name, value, rest) => (name, value) :: finditer_params rest
    | None => finditer_params r
    end.
Proof.
  unfold finditer_params at 1. cbn [length finditer_params_from].
  destruct (match_param (c :: r)) as [[[name value] rest]|] eqn:Hm.
  - f_equal. apply finditer_params_from_enough.
    apply match_param_shorter in Hm. cbn [length] in Hm. lia.
  - by apply finditer_params_from_enough.
Qed.

(** What one match of the pattern is. *)
Lemma match_param_Some (s name value rest : str) :
  match_param s = Some (name, value, rest) →
  s = name ++ [61] ++ value ++ rest
  ∧ name ≠ [] ∧ Forall (λ c, is_name_char c = true) name
  ∧ Forall (λ c, c ≠ 38) value
  ∧ (rest = [] ∨ ∃ r, rest = 38 :: r).
Proof.
  unfold match_param.
  destruct (span is_name_char s) as [n r] eqn:E1.
  apply span_eq in E1 as (-> & Fn & _).
  destruct n as [|c0 n]; [done|]. destruct r as [|e r']; [done|].
  destruct (N.eqb_spec e 61) as [->|]; [|done].
  destruct (span is_not_amp r') as [v t] eqn:E2.
  apply span_eq in E2 as (-> & Fv & Ht).
  intros [= <- <- <-]. repeat split; try done.
  - eapply Forall_impl; [exact Fv|]. intros c Hc ->. done.
  - destruct Ht as [->|(c & t' & -> & Hc)]; [by left|]. right. exists t'.
    unfold is_not_amp in Hc. apply negb_false_iff, N.eqb_eq in Hc. by subst.
Qed.

(** Every match is a stretch [name=value] of the request: the name is a
    non-empty run of letters, digits and underscores, and the value holds no
    ampersand. *)
Lemma elem_of_finditer_params (s name value : str) :
  (name, value) ∈ finditer_params s →
  name ≠ [] ∧ Forall (λ c, is_name_char c = true) name
  ∧ Forall (λ c, c ≠ 38) value
  ∧ ∃ before after, s = before ++ name ++ [61] ++ value ++ after.
Proof.
  remember (length s) as n eqn:Hn. revert s Hn.
  induction n as [n IH] using lt_wf_ind. intros s -> Hin.
  destruct s as [|c r]; [by apply elem_of_nil in Hin|].
  rewrite finditer_params_cons in Hin.
  destruct (match_param (c :: r)) as [[[nm v] rest]|] eqn:Hm.
  - pose proof (match_param_shorter _ _ _ _ Hm) as Hlen.
    apply match_param_Some in Hm as (Hs & Hne & Fn & Fv & _).
    apply elem_of_cons in Hin as [[= -> ->]|Hin].
    + repeat split; try done. exists [], rest. by rewrite Hs.
    + destruct (IH (length rest) ltac:(lia) rest eq_refl Hin)
        as (H1 & H2 & H3 & before & after & ->).
      repeat split; try done.
      exists (nm ++ [61] ++ v ++ before), after. rewrite Hs.
      by rewrite <- !app_assoc.
  - destruct (IH (length r) ltac:(cbn; lia) r eq_refl Hin)
      as (H1 & H2 & H3 & before & after & ->).
    repeat split; try done. by exists (c :: before), after.
Qed.

Lemma match_param_pair (name value tail : str) :
  name ≠ [] → Forall (λ c, is_name_char c = true) name →
  Forall (λ c, c ≠ 38) value →
  (tail = [] ∨ ∃ r, tail = 38 :: r) →
  match_param (name ++ 61 :: value ++ tail) = Some (name, value, tail).
Proof.
  intros Hne Fn Fv Ht. unfold match_param.
  rewrite (span_unique is_name_char name (61 :: value ++ tail)); [|done|].
  2: { right. by exists 61, (value ++ tail). }
  destruct name as [|c0 name]; [done|]. cbn [app N.eqb Pos.eqb].
  rewrite (span_unique is_not_amp value tail); [done| |].
  - eapply Forall_impl; [exact Fv|]. intros c Hc. unfold is_not_amp.
    by apply negb_true_iff, N.eqb_neq.
  - destruct Ht as [->|[r ->]]; [by left|]. right. by exists 38, r.
Qed.

Lemma finditer_params_amp (q : str) :
  finditer_params (38 :: q) = finditer_params q.
Proof. by rewrite finditer_params_cons. Qed.

Lemma query_string_cons (name value : str) (pairs : list (str * str)) :
  query_string ((name, value) :: pairs)
  = name ++ 61 :: value
    ++ match pairs with [] => [] | _ :: _ => 38 :: query_string pairs end.
Proof.
  unfold query_string. destruct pairs as [|[n v] l]; cbn.
  - by rewrite app_nil_r.
  - by rewrite <- !app_assoc.
Qed.

Lemma finditer_params_pair (name value tail : str) :
  name ≠ [] → Forall (λ c, is_name_char c = true) name →
  Forall (λ c, c ≠ 38) value →
  (tail = [] ∨ ∃ r, tail = 38 :: r) →
  finditer_params (name ++ 61 :: value ++ tail)
  = (name, value) :: finditer_params tail.
Proof.
  intros Hne Fn Fv Ht.
  pose proof (match_param_pair name value tail Hne Fn Fv Ht) as Hm.
  destruct name as [|c0 name]; [done|]. cbn [app] in *.
  by rewrite finditer_params_cons, Hm.
Qed.

(** X1.  Parsing is the inverse of writing a query string: when every name
    is a non-empty run of letters, digits and underscores and no value
    holds an ampersand, the matches of [name=value&...&name=value] are its
    pairs, in order and with repetitions. *)
Theorem X1_finditer_query_string (pairs : list (str * str)) :
  Forall (λ nv, nv.1 ≠ [] ∧ Forall (λ c, is_name_char c = true) nv.1
                ∧ Forall (λ c, c ≠ 38) nv.2) pairs →
  finditer_params (query_string pairs) = pairs.
Proof.
  induction 1 as [|[name value] pairs (Hne & Fn & Fv) Hrest IH]; [done|].
  rewrite query_string_cons. cbn [fst snd] in *.
  etrans; [apply finditer_params_pair; try done|].
  - destruct pairs; [by left|right; by eexists].
  - f_equal. destruct pairs as [|p l]; [done|].
    by rewrite finditer_params_amp.
Qed.

Lemma X1_finditer_query_string_witness :
  finditer_params
    (query_string [(lit "sz", lit "640x480"); (lit "env", lit "vp");
                   (lit "sz", lit "")])
  = [(lit "sz", lit "640x480"); (lit "env", lit "vp"); (lit "sz", lit "")].
Proof.
  apply (X1_finditer_query_string
           [(lit "sz", lit "640x480"); (lit "env", lit "vp"); (lit "sz", lit "")]).
  repeat constructor; try discriminate; vm_compute; reflexivity.
Defined.

(** *** The stored parameters *)

Lemma store_params_app (decode_params : bool) (l1 l2 : list (str * str))
    (m : gmap str str) :
  store_params decode_params (l1 ++ l2) m
  = store_params decode_params l1 m ≫= store_params decode_params l2.
Proof.
  revert m. induction l1 as [|[n v] l1 IH]; intros m; [done|].
  cbn [app store_params].
  destruct (if decode_params then unquote replace v else Some v) as [v'|];
    [|done].
  cbn. apply IH.
Qed.

Lemma store_params_other (decode_params : bool) (l : list (str * str))
    (m m' : gmap str str) (name : str) :
  name ∉ l.*1 → store_params decode_params l m = Some m' →
  m' !! name = m !! name.
Proof.
  revert m. induction l as [|[n v] l IH]; intros m Hn.
  - by intros [= <-].
  - cbn [store_params].
    destruct (if decode_params then unquote replace v else Some v) as [v'|];
      [|done].
    cbn. intros H. rewrite (IH (<[n:=v']> m)); [| |done].
    + apply lookup_insert_ne. intros ->. apply Hn. cbn. left.
    + intros Hin. apply Hn. cbn. by right.
Qed.

(** X2.  When a name occurs more than once in the request, its last
    occurrence wins: the value stored under the name is the value of the
    last match with that name, unquoted when decoding is on.  A name with
    no match is absent. *)
Theorem X2_last_occurrence_wins (py : Env) (raw c : str) (rules : type_rules)
    (is_programmatic decode_params : bool)
    (name value : str) (before after : list (str * str)) :
  dict_get param_rules c = Some rules →
  finditer_params raw = before ++ (name, value) :: after →
  name ∉ after.*1 →
  ∃ present issues,
    validate_vast_request py raw c is_programmatic decode_params
    = Some (present, issues)
    ∧ present !! name
      = (if decode_params then unquote replace value else Some value)
    ∧ (∀ other, other ∉ (finditer_params raw).*1 → present !! other = None).
Proof.
  intros Hc Hraw Hafter.
  destruct (validate_known py raw c rules is_programmatic decode_params Hc)
    as (present & Hstore & Hdom & Hval).
  eexists _, _. split; [exact Hval|]. split.
  - rewrite Hraw, store_params_app in Hstore.
    destruct (store_params decode_params before ∅) as [m1|]; [|done].
    cbn in Hstore.
    assert (∃ v', (if decode_params then unquote replace value else Some value)
                  = Some v') as [v' Hv'].
    { destruct decode_params; [apply unquote_replace_returns|by eexists]. }
    rewrite Hv' in Hstore |- *. cbn in Hstore.
    rewrite (store_params_other _ _ _ _ name Hafter Hstore).
    apply lookup_insert_eq.
  - intros other Hother. apply not_elem_of_dom. rewrite Hdom.
    by rewrite elem_of_list_to_set.
Qed.

Lemma X2_last_occurrence_wins_witness :
  ∃ present issues,
    validate_vast_request ascii_env (lit "sz=1x1&env=vp&sz=640%78480")
      (lit "web") false true
    = Some (present, issues)
    ∧ present !! lit "sz" = unquote replace (lit "640%78480")
    ∧ (∀ other,
         other ∉ (finditer_params (lit "sz=1x1&env=vp&sz=640%78480")).*1 →
         present !! other = None).
Proof.
  apply (X2_last_occurrence_wins ascii_env (lit "sz=1x1&env=vp&sz=640%78480")
           (lit "web") web_rules false true (lit "sz") (lit "640%78480")
           [(lit "sz", lit "1x1"); (lit "env", lit "vp")] []).
  - reflexivity.
  - vm_compute. reflexivity.
  - apply not_elem_of_nil.
Defined.

(** *** The issues of a call, parameter by parameter *)

Section IssueOrder.
Variable py : Env.

(** A check appends nothing or one issue. *)
Lemma validate_param_cases param rules value :
  validate_param py param rules value [] = []
  ∨ ∃ i, validate_param py param rules value [] = [i].
Proof.
  unfold validate_param. case_bool_decide; [right; by eexists|].
  destruct rules; repeat case_match; (by left) || (right; by eexists).
Qed.

Lemma param_issues_cases present msg req param rules :
  param_issues py present msg req (param, rules) = []
  ∨ ∃ i, param_issues py present msg req (param, rules) = [i]
         ∧ parameter i = param.
Proof.
  destruct (param_issues py present msg req (param, rules)) as [|i l] eqn:E;
    [by left|].
  right. exists i.
  assert (parameter i = param) as Hi.
  { eapply elem_of_param_issues. rewrite E. left. }
  split; [|done]. f_equal.
  rewrite param_issues_eq in E. destruct (present !! param) as [v|].
  - destruct (validate_param_cases param rules v) as [H|[j H]];
      rewrite H in E; by simplify_eq.
  - destruct req; by simplify_eq.
Qed.

Lemma param_issues_sublist present msg req (items : param_dict) :
  parameter <$> (items ≫= param_issues py present msg req)
  `sublist_of` items.*1.
Proof.
  induction items as [|[p r] items IH]; [constructor|].
  rewrite bind_cons, fmap_app, fmap_cons. cbn [fst].
  destruct (param_issues_cases present msg req p r) as [->|(i & -> & <-)].
  - cbn. by constructor.
  - cbn. by constructor.
Qed.

Lemma bind_nil_Forall {A B} (f : A → list B) (l : list A) :
  l ≫= f = [] ↔ Forall (λ x, f x = []) l.
Proof.
  induction l as [|x l IH]; [by split; [constructor|]|].
  rewrite bind_cons, Forall_cons, <- IH. split.
  - by intros [? ?]%app_eq_nil.
  - by intros [-> ->].
Qed.

End IssueOrder.

(** X3.  A parameter of the required tier that the request lacks gets
    exactly one issue, of type "missing" with message "Missing required
    parameter"; under the programmatic flag the same holds for the
    programmatic-required tier with message "Missing required programmatic
    parameter". *)
Theorem X3_missing_required (py : Env) (raw c : str) (rules : type_rules)
    (is_programmatic decode_params : bool) (p : str) (r : rule) (msg : str) :
  dict_get param_rules c = Some rules →
  (dict_get (required rules) p = Some r
   ∧ msg = lit "Missing required parameter")
  ∨ (is_programmatic = true
     ∧ dict_get (programmatic_required rules) p = Some r
     ∧ msg = lit "Missing required programmatic parameter") →
  ∃ present issues,
    validate_vast_request py raw c is_programmatic decode_params
    = Some (present, issues)
    ∧ (present !! p = None → issues_for p issues = [missing_issue p msg]).
Proof.
  intros Hc Hp.
  pose proof (registry_nodup c rules Hc) as Hnd.
  destruct (declared_nodup_tiers rules Hnd) as (_ & _ & _ & D12 & _ & _).
  destruct (validate_known py raw c rules is_programmatic decode_params Hc)
    as (present & _ & _ & Hval).
  eexists _, _. split; [exact Hval|]. intros Habsent.
  rewrite (issues_for_tiers py p present rules is_programmatic Hnd).
  destruct Hp as [[Hp ->]|(-> & Hp & ->)].
  - rewrite Hp. cbv beta iota. by rewrite param_issues_eq, Habsent.
  - assert (dict_get (required rules) p = None) as ->.
    { destruct (dict_get (required rules) p) eqn:E; [|done].
      exfalso. apply dict_get_Some_key in E, Hp. by apply (D12 p E). }
    rewrite Hp. cbv beta iota. by rewrite param_issues_eq, Habsent.
Qed.

Lemma X3_missing_required_witness :
  ∃ present issues,
    validate_vast_request ascii_env (lit "env=vp") (lit "ctv") true false
    = Some (present, issues)
    ∧ (present !! lit "vpmute" = None →
       issues_for (lit "vpmute") issues
       = [missing_issue (lit "vpmute")
            (lit "Missing required programmatic parameter")]).
Proof.
  apply (X3_missing_required ascii_env (lit "env=vp") (lit "ctv") ctv_rules
           true false (lit "vpmute") Bool
           (lit "Missing required programmatic parameter")).
  - reflexivity.
  - right. repeat split; reflexivity.
Defined.

(** X4.  The issues of a call follow the registry: their parameter names,
    read in order, are drawn without repetition from the names of the
    evaluated tiers in the order required, programmatic-required (under the
    flag), programmatic-recommended.  So each parameter gets at most one
    issue and there are at most as many issues as evaluated parameters. *)
Theorem X4_issues_follow_registry (py : Env) (raw c : str) (rules : type_rules)
    (is_programmatic decode_params : bool) :
  dict_get param_rules c = Some rules →
  ∃ present issues,
    validate_vast_request py raw c is_programmatic decode_params
    = Some (present, issues)
    ∧ parameter <$> issues `sublist_of` (active_items rules is_programmatic).*1
    ∧ NoDup (parameter <$> issues)
    ∧ (length issues ≤ length (active_items rules is_programmatic))%nat.
Proof.
  intros Hc.
  pose proof (registry_nodup c rules Hc) as Hnd.
  destruct (validate_known py raw c rules is_programmatic decode_params Hc)
    as (present & _ & _ & Hval).
  eexists _, _. split; [exact Hval|].
  assert (parameter <$> (tiers rules is_programmatic ≫= tier_issues py present)
          `sublist_of` (active_items rules is_programmatic).*1) as Hsub.
  { rewrite tiers_issues. unfold active_items. rewrite !fmap_app.
    apply sublist_app; [apply param_issues_sublist|].
    apply sublist_app; [|apply param_issues_sublist].
    destruct is_programmatic; [apply param_issues_sublist|constructor]. }
  split; [exact Hsub|]. split.
  - eapply sublist_NoDup; [|exact Hsub].
    unfold active_items. unfold declared in Hnd.
    destruct is_programmatic; [by rewrite !fmap_app|].
    rewrite !NoDup_app in Hnd. destruct Hnd as (H1 & H12 & H2 & H23 & H3).
    rewrite !fmap_app. cbn. apply NoDup_app. repeat split; try done.
    intros x Hx Hx3. apply (H12 x Hx). apply elem_of_app. by right.
  - apply sublist_length in Hsub. by rewrite !length_fmap in Hsub.
Qed.

Lemma X4_issues_follow_registry_witness :
  ∃ present issues,
    validate_vast_request ascii_env (lit "vpmute=2&sz=&env=vp") (lit "doh")
      true false
    = Some (present, issues)
    ∧ parameter <$> issues `sublist_of` (active_items doh_rules true).*1
    ∧ NoDup (parameter <$> issues)
    ∧ (length issues ≤ length (active_items doh_rules true))%nat.
Proof.
  apply (X4_issues_follow_registry ascii_env (lit "vpmute=2&sz=&env=vp")
           (lit "doh") doh_rules true false).
  reflexivity.
Defined.

(** X5.  A call returns no issue exactly when every parameter of the
    required tier, and of the programmatic-required tier under the flag, is
    present with a value that passes its check, and every present parameter
    of the programmatic-recommended tier passes its check. *)
Theorem X5_no_issue_iff (py : Env) (raw c : str) (rules : type_rules)
    (is_programmatic decode_params : bool) :
  dict_get param_rules c = Some rules →
  ∃ present issues,
    validate_vast_request py raw c is_programmatic decode_params
    = Some (present, issues)
    ∧ (issues = [] ↔
       Forall (λ item, ∃ value, present !! item.1 = Some value
                 ∧ validate_param py item.1 item.2 value [] = [])
         (required rules
          ++ (if is_programmatic then programmatic_required rules else []))
       ∧ Forall (λ item, ∀ value, present !! item.1 = Some value →
                   validate_param py item.1 item.2 value [] = [])
           (programmatic_recommended rules)).
Proof.
  intros Hc.
  destruct (validate_known py raw c rules is_programmatic decode_params Hc)
    as (present & _ & _ & Hval).
  eexists _, _. split; [exact Hval|].
  rewrite tiers_issues, Forall_app.
  assert (∀ msg (items : param_dict),
            items ≫= param_issues py present msg true = [] ↔
            Forall (λ item, ∃ value, present !! item.1 = Some value
                      ∧ validate_param py item.1 item.2 value [] = []) items)
    as Hreq.
  { intros msg items. rewrite bind_nil_Forall. apply Forall_proper; [|done].
    intros [p r]. rewrite param_issues_eq. cbn [fst snd].
    destruct (present !! p) as [v|]; split; try done.
    - intros H. by exists v.
    - by intros (v' & [= <-] & H).
    - by intros (v' & ? & _). }
  assert (∀ msg (items : param_dict),
            items ≫= param_issues py present msg false = [] ↔
            Forall (λ item, ∀ value, present !! item.1 = Some value →
                      validate_param py item.1 item.2 value [] = []) items)
    as Hrec.
  { intros msg items. rewrite bind_nil_Forall. apply Forall_proper; [|done].
    intros [p r]. rewrite param_issues_eq. cbn [fst snd].
    destruct (present !! p) as [v|]; split; try done.
    - by intros H v' [= <-].
    - intros H. by apply H. }
  rewrite <- Hreq, <- Hrec.
  assert ((if is_programmatic
           then programmatic_required rules
                  ≫= param_issues py present
                       (lit "Missing required programmatic parameter") true
           else []) = [] ↔
          Forall (λ item, ∃ value, present !! item.1 = Some value
                    ∧ validate_param py item.1 item.2 value [] = [])
            (if is_programmatic then programmatic_required rules else []))
    as Hprog.
  { destruct is_programmatic; [apply Hreq|]. split; [constructor|done]. }
  rewrite <- Hprog. split.
  - intros [H1 [H2 H3]%app_eq_nil]%app_eq_nil. done.
  - by intros [[-> ->] ->].
Qed.

Lemma X5_no_issue_iff_witness :
  ∃ present issues,
    validate_vast_request ascii_env (lit "env=vp") (lit "audio") false false
    = Some (present, issues)
    ∧ (issues = [] ↔
       Forall (λ item, ∃ value, present !! item.1 = Some value
                 ∧ validate_param ascii_env item.1 item.2 value [] = [])
         (required audio_rules ++ [])
       ∧ Forall (λ item, ∀ value, present !! item.1 = Some value →
                   validate_param ascii_env item.1 item.2 value [] = [])
           (programmatic_recommended audio_rules)).
Proof.
  apply (X5_no_issue_iff ascii_env (lit "env=vp") (lit "audio") audio_rules
           false false).
  reflexivity.
Defined.

(** X6.  The issues depend on the request only through the values of the
    declared parameters: two requests for the same implementation type and
    programmatic flag whose present parameters agree on every declared name
    get the same issues, whatever else they hold and whether or not values
    were decoded. *)
Theorem X6_issues_depend_on_declared (py : Env) (raw raw' c : str)
    (rules : type_rules) (is_programmatic decode_params decode_params' : bool) :
  dict_get param_rules c = Some rules →
  ∃ present issues present' issues',
    validate_vast_request py raw c is_programmatic decode_params
    = Some (present, issues)
    ∧ validate_vast_request py raw' c is_programmatic decode_params'
      = Some (present', issues')
    ∧ ((∀ p, p ∈ declared rules → present !! p = present' !! p) →
       issues = issues').
Proof.
  intros Hc.
  destruct (validate_known py raw c rules is_programmatic decode_params Hc)
    as (present & _ & _ & Hval).
  destruct (validate_known py raw' c rules is_programmatic decode_params' Hc)
    as (present' & _ & _ & Hval').
  eexists _, _, _, _. split; [exact Hval|]. split; [exact Hval'|].
  intros Hagree. rewrite !tiers_issues.
  assert (∀ msg req (items : param_dict),
            (∀ p, p ∈ items.*1 → present !! p = present' !! p) →
            items ≫= param_issues py present msg req
            = items ≫= param_issues py present' msg req) as Hitems.
  { intros msg req items. induction items as [|[p r] items IH]; [done|].
    intros Hin. rewrite !bind_cons, !param_issues_eq.
    rewrite (Hin p) by (cbn; left). f_equal. apply IH.
    intros q Hq. apply Hin. cbn. by right. }
  unfold declared in Hagree.
  f_equal; [|f_equal].
  - apply Hitems. intros p Hp. apply Hagree. rewrite !elem_of_app. by left.
  - destruct is_programmatic; [|done].
    apply Hitems. intros p Hp. apply Hagree. rewrite !elem_of_app.
    right. by left.
  - apply Hitems. intros p Hp. apply Hagree. rewrite !elem_of_app.
    right. by right.
Qed.

Lemma X6_issues_depend_on_declared_witness :
  ∃ present issues present' issues',
    validate_vast_request ascii_env (lit "sz=1x1&foo=1") (lit "web") false false
    = Some (present, issues)
    ∧ validate_vast_request ascii_env (lit "bar=%41&sz=1%781") (lit "web")
        false true
      = Some (present', issues')
    ∧ ((∀ p, p ∈ declared web_rules → present !! p = present' !! p) →
       issues = issues').
Proof.
  apply (X6_issues_depend_on_declared ascii_env (lit "sz=1x1&foo=1")
           (lit "bar=%41&sz=1%781") (lit "web") web_rules false false true).
  reflexivity.
Defined.

(** X7.  Switching the programmatic flag on changes neither the present
    parameters nor the issues of the required and recommended tiers: it
    only inserts, between them, the issues of the programmatic-required
    tier. *)
Theorem X7_programmatic_flag_inserts (py : Env) (raw c : str)
    (rules : type_rules) (decode_params : bool) :
  dict_get param_rules c = Some rules →
  ∃ present first inserted last,
    validate_vast_request py raw c false decode_params
    = Some (present, first ++ last)
    ∧ validate_vast_request py raw c true decode_params
      = Some (present, first ++ inserted ++ last)
    ∧ (∀ i, i ∈ first → parameter i ∈ (required rules).*1)
    ∧ (∀ i, i ∈ inserted → parameter i ∈ (programmatic_required rules).*1)
    ∧ (∀ i, i ∈ last → parameter i ∈ (programmatic_recommended rules).*1).
Proof.
  intros Hc.
  destruct (validate_known py raw c rules false decode_params Hc)
    as (present & Hstore & _ & Hval).
  destruct (validate_known py raw c rules true decode_params Hc)
    as (present' & Hstore' & _ & Hval').
  rewrite Hstore in Hstore'. injection Hstore' as <-.
  rewrite tiers_issues in Hval, Hval'. cbn [app] in Hval.
  eexists present, _, _, _. split; [exact Hval|]. split; [exact Hval'|].
  assert (∀ msg req (items : param_dict) i,
            i ∈ items ≫= param_issues py present msg req →
            parameter i ∈ items.*1) as Hin.
  { intros msg req items i Hi.
    apply elem_of_bind_param_issues in Hi as (r & Hr & _).
    apply list_elem_of_fmap. by exists (parameter i, r). }
  repeat split; apply Hin.
Qed.

Lemma X7_programmatic_flag_inserts_witness :
  ∃ present first inserted last,
    validate_vast_request ascii_env (lit "vpa=x&wta=y") (lit "app") false false
    = Some (present, first ++ last)
    ∧ validate_vast_request ascii_env (lit "vpa=x&wta=y") (lit "app") true false
      = Some (present, first ++ inserted ++ last)
    ∧ (∀ i, i ∈ first → parameter i ∈ (required app_rules).*1)
    ∧ (∀ i, i ∈ inserted → parameter i ∈ (programmatic_required app_rules).*1)
    ∧ (∀ i, i ∈ last → parameter i ∈ (programmatic_recommended app_rules).*1).
Proof.
  apply (X7_programmatic_flag_inserts ascii_env (lit "vpa=x&wta=y") (lit "app")
           app_rules false).
  reflexivity.
Defined.

(** X8.  A request without an equals sign, the empty request among them,
    has no present parameter: the call returns, in registry order, one
    "missing" issue for each required parameter, followed under the
    programmatic flag by one for each programmatic-required parameter, and
    nothing for the recommended ones. *)
Theorem X8_no_equals_sign (py : Env) (raw c : str) (rules : type_rules)
    (is_programmatic decode_params : bool) :
  dict_get param_rules c = Some rules → 61 ∉ raw →
  validate_vast_request py raw c is_programmatic decode_params
  = Some (∅,
          ((λ item, missing_issue item.1 (lit "Missing required parameter"))
             <$> required rules)
          ++ (if is_programmatic
              then (λ item, missing_issue item.1
                              (lit "Missing required programmatic parameter"))
                     <$> programmatic_required rules
              else [])).
Proof.
  intros Hc Hraw.
  assert (finditer_params raw = []) as Hnone.
  { destruct (finditer_params raw) as [|[name value] l] eqn:E; [done|].
    exfalso. apply Hraw.
    destruct (elem_of_finditer_params raw name value)
      as (_ & _ & _ & before & after & ->); [rewrite E; left|].
    rewrite !elem_of_app. right. right. left. left. }
  destruct (validate_known py raw c rules is_programmatic decode_params Hc)
    as (present & Hstore & _ & Hval).
  rewrite Hnone in Hstore. injection Hstore as <-.
  rewrite Hval, tiers_issues. f_equal. f_equal.
  assert (∀ msg (items : param_dict),
            items ≫= param_issues py ∅ msg true
            = (λ item, missing_issue item.1 msg) <$> items) as Hreq.
  { intros msg items. induction items as [|[p r] items IH]; [done|].
    by rewrite bind_cons, fmap_cons, IH, param_issues_eq, lookup_empty. }
  assert (∀ msg (items : param_dict),
            items ≫= param_issues py ∅ msg false = []) as Hrec.
  { intros msg items. induction items as [|[p r] items IH]; [done|].
    by rewrite bind_cons, IH, param_issues_eq, lookup_empty. }
  rewrite Hrec, app_nil_r, !Hreq. by destruct is_programmatic.
Qed.

Lemma X8_no_equals_sign_witness :
  validate_vast_request ascii_env (lit "hello&world") (lit "audio") true true
  = Some (∅,
          ((λ item, missing_issue item.1 (lit "Missing required parameter"))
             <$> required audio_rules)
          ++ ((λ item, missing_issue item.1
                         (lit "Missing required programmatic parameter"))
                <$> programmatic_required audio_rules)).
Proof.
  apply (X8_no_equals_sign ascii_env (lit "hello&world") (lit "audio")
           audio_rules true true).
  - reflexivity.
  - apply (bool_decide_unpack _). vm_compute. reflexivity.
Defined.

(** *** Decoding without escapes *)

Lemma has_escape_cons (c : N) (s : str) : has_escape s → has_escape (c :: s).
Proof.
  intros (before & h1 & h2 & after & -> & H1 & H2).
  by exists (c :: before), h1, h2, after.
Qed.

Lemma has_escape_app (a s b : str) : has_escape s → has_escape (a ++ s ++ b).
Proof.
  intros (before & h1 & h2 & after & -> & H1 & H2).
  exists (a ++ before), h1, h2, (after ++ b).
  split; [|done]. by rewrite <- !app_assoc.
Qed.

Lemma hextobyte_Some (item : bytes) b :
  hextobyte item = Some b →
  ∃ h1 h2 rest, item = h1 :: h2 :: rest
                ∧ is_Some (hexdig h1) ∧ is_Some (hexdig h2).
Proof.
  destruct item as [|h1 [|h2 rest]]; try done. cbn.
  destruct (hexdig h1) eqn:E1, (hexdig h2) eqn:E2; try done.
  intros _. exists h1, h2, rest. by rewrite E1, E2.
Qed.

Lemma split_percent_nonempty (s : bytes) : split_percent s ≠ [].
Proof.
  destruct s as [|c r]; [done|]. cbn.
  destruct (split_percent r); [done|]. by destruct (c =? 37).
Qed.

(** Without an escape, the pieces between percent signs go back together
    as they were. *)
Lemma split_percent_rejoin (s : str) :
  ¬ has_escape s →
  match split_percent s with
  | [] => s
  | first :: items =>
    first ++ concat (List.map (λ item,
      match hextobyte item with
      | Some byte => byte :: drop 2 item
      | None => 37 :: item
      end) items)
  end = s.
Proof.
  induction s as [|c r IH]; intros Hesc; [done|].
  assert (¬ has_escape r) as Hr by (intros H; by apply Hesc, has_escape_cons).
  specialize (IH Hr). cbn [split_percent].
  destruct (split_percent r) as [|first others] eqn:E;
    [by destruct (split_percent_nonempty r)|].
  destruct (N.eqb_spec c 37) as [->|Hc].
  - cbn [app List.map concat].
    destruct (hextobyte first) as [b|] eqn:Hb.
    + exfalso. apply Hesc.
      apply hextobyte_Some in Hb as (h1 & h2 & rest & -> & H1 & H2).
      exists [], h1, h2,
        (rest ++ concat (List.map (λ item,
           match hextobyte item with
           | Some byte => byte :: drop 2 item
           | None => 37 :: item
           end) others)).
      split; [|done]. cbn [app]. f_equal. by rewrite <- IH.
    + cbn [app]. by rewrite IH.
  - cbn [app]. by rewrite IH.
Qed.

Lemma unquote_impl_no_escape (s : str) : ¬ has_escape s → unquote_impl s = s.
Proof.
  intros Hesc. pose proof (split_percent_rejoin s Hesc) as H.
  unfold unquote_impl. by destruct (split_percent s) as [|first [|item items]].
Qed.

Lemma utf8_decode_ascii (handler : errors) (s : bytes) :
  Forall (λ c, is_ascii c = true) s → utf8_decode handler s = Some s.
Proof.
  unfold utf8_decode. induction 1 as [|c s Hc Hs IH]; [done|].
  cbn [utf8_decode_from utf8_step]. unfold is_ascii in Hc. rewrite Hc.
  cbn [Nat.pred]. by rewrite IH.
Qed.

Lemma unquoted_parts_no_escape (handler : errors) (fuel : nat) (s : str) :
  (length s ≤ fuel)%nat → ¬ has_escape s →
  unquoted_parts handler fuel s = Some s.
Proof.
  revert s. induction fuel as [|fuel IH]; intros s Hlen Hesc.
  - by destruct s; [|cbn in Hlen; lia].
  - destruct s as [|c0 s0]; [done|]. cbn [unquoted_parts].
    destruct (span (λ c, negb (is_ascii c)) (c0 :: s0)) as [non_ascii r] eqn:E1.
    apply span_eq in E1 as (Hs & F1 & H1).
    destruct (span is_ascii r) as [run r'] eqn:E2.
    apply span_eq in E2 as (-> & F2 & H2).
    assert (¬ has_escape run) as Hrun.
    { intros H. apply Hesc. rewrite Hs. by apply has_escape_app. }
    rewrite (unquote_impl_no_escape run Hrun), (utf8_decode_ascii _ run F2).
    cbn. rewrite IH.
    + cbn. by rewrite Hs.
    + assert (length (c0 :: s0) = length non_ascii + length run + length r')%nat
        as Hl by (rewrite Hs, !length_app; lia).
      cbn [length] in Hl, Hlen.
      destruct non_ascii as [|a non_ascii]; [|cbn in Hl; lia].
      destruct run as [|b run]; [|cbn in Hl; lia].
      exfalso. cbn [app] in *. subst r'.
      destruct H1 as [?|(c & t & [= <- <-] & Hc)]; [done|].
      destruct H2 as [?|(c & t & [= <- <-] & Hc')]; [done|].
      apply negb_false_iff in Hc. congruence.
    + intros H. apply Hesc. rewrite Hs.
      rewrite app_assoc. rewrite <- (app_nil_r r').
      by apply has_escape_app.
Qed.

(** A string without an escape is decoded to itself, under either
    handler. *)
Lemma unquote_no_escape (handler : errors) (s : str) :
  ¬ has_escape s → unquote handler s = Some s.
Proof.
  intros Hesc. unfold unquote. destruct (negb _); [done|].
  by apply unquoted_parts_no_escape.
Qed.

Lemma find_escape_false (s : str) : find_escape s = false → ¬ has_escape s.
Proof.
  intros Hf (before & h1 & h2 & after & -> & H1 & H2).
  induction before as [|b before IH]; cbn [app find_escape] in Hf;
    apply orb_false_iff in Hf as [Hhere Hrest].
  - cbn [N.eqb Pos.eqb andb] in Hhere.
    by rewrite !bool_decide_true in Hhere.
  - by apply IH.
Qed.

(** X9.  On a request that holds no percent sign followed by two
    hexadecimal digits, the decoding flag changes nothing: the present
    parameters and the issues are the same with and without it, for every
    implementation type.  A lone or malformed percent sign is kept as it
    is written. *)
Theorem X9_decode_without_escape (py : Env) (raw c : str)
    (is_programmatic : bool) :
  ¬ has_escape raw →
  validate_vast_request py raw c is_programmatic true
  = validate_vast_request py raw c is_programmatic false.
Proof.
  intros Hraw. unfold validate_vast_request.
  destruct (dict_get param_rules c) as [rules|]; [|done].
  assert (∀ (l : list (str * str)) (m : gmap str str),
            Forall (λ nv, ¬ has_escape nv.2) l →
            store_params true l m = store_params false l m) as Hsame.
  { intros l. induction l as [|[n v] l IH]; intros m Hl; [done|].
    apply Forall_cons in Hl as [Hv Hl]. cbn [store_params snd] in *.
    rewrite (unquote_no_escape replace v Hv). cbn. by apply IH. }
  rewrite Hsame; [done|].
  apply Forall_forall. intros [name value] Hin. cbn.
  apply elem_of_finditer_params in Hin as (_ & _ & _ & before & after & ->).
  intros Hv. apply Hraw.
  rewrite (app_assoc name), (app_assoc before). by apply has_escape_app.
Qed.

Lemma X9_decode_without_escape_witness :
  validate_vast_request ascii_env (lit "sz=100%&env=%zz") (lit "web") false true
  = validate_vast_request ascii_env (lit "sz=100%&env=%zz") (lit "web")
      false false.
Proof.
  apply (X9_decode_without_escape ascii_env (lit "sz=100%&env=%zz")
           (lit "web") false).
  apply find_escape_false. vm_compute. reflexivity.
Defined.

(** X10.  The checks by exact comparison.  A value passes the boolean rule
    exactly when it is the one character 0 or 1, and passes an enum rule
    exactly when it is non-empty and equal to one of the allowed values,
    character for character; an empty value fails the enum rule even if
    the empty string is among the allowed values. *)
Theorem X10_bool_and_enum (py : Env) (p value : str) (allowed_values : list str) :
  (validate_param py p Bool value [] = [] ↔ value = [48] ∨ value = [49])
  ∧ (validate_param py p (Enum allowed_values) value [] = [] ↔
     value ≠ [] ∧ value ∈ allowed_values).
Proof.
  unfold validate_param, str_in. split.
  - case_bool_decide as Hv.
    + subst. split; [done|]. by intros [?|?].
    + case_bool_decide as Hin; cbn.
      * split; [|done]. intros _.
        rewrite !elem_of_cons, elem_of_nil in Hin.
        destruct Hin as [->|[->|[]]]; [by left|by right].
      * split; [done|]. intros Hor. exfalso. apply Hin.
        rewrite !elem_of_cons. destruct Hor as [->| ->]; [by left|right; by left].
  - case_bool_decide as Hv.
    + subst. split; [done|]. by intros [? _].
    + case_bool_decide as Hin; cbn; split; try done. by intros [_ ?].
Qed.

(** *** The URL check *)

Section UrlCheck.
Variable py : Env.







End UrlCheck.


(** *** The command line *)

(** Every implementation type the command line admits is a key of the
    registry, in lower case already. *)
Lemma choice_known (c : Cli.implementation_choice) :
  Cli.lower (Cli.choice_name c) = Cli.choice_name c
  ∧ ∃ rules, dict_get param_rules (Cli.choice_name c) = Some rules.
Proof. destruct c; (split; [reflexivity|by eexists]). Qed.

(** Whatever the call returns counts as errors for [main]. *)
Lemma errors_of_issues (l : list issue) :
  (∀ i, i ∈ l → type i = lit "invalid" ∨ type i = lit "missing") →
  errors_of l = l.
Proof.
  unfold errors_of. induction l as [|i l IH]; intros Htypes; [done|].
  cbn [List.filter].
  assert (is_error i = true) as ->.
  { unfold is_error, str_in. apply bool_decide_eq_true.
    destruct (Htypes i) as [->| ->]; [left|left|right; left]. }
  f_equal. apply IH. intros j Hj. apply Htypes. by right.
Qed.

Lemma main_validate (py : Env) (a : Cli.args) :
  ∃ present issues,
    validate_vast_request py (Cli.vast_request a)
      (Cli.choice_name (Cli.implementation_type a))
      (Cli.programmatic a) (Cli.decode a)
    = Some (present, issues)
    ∧ errors_of issues = issues ∧ warnings_of issues = [].
Proof.
  destruct (choice_known (Cli.implementation_type a)) as [_ [rules Hc]].
  destruct (validate_known py (Cli.vast_request a) _ rules
              (Cli.programmatic a) (Cli.decode a) Hc)
    as (present & _ & _ & Hval).
  eexists _, _. split; [exact Hval|].
  assert (∀ i, i ∈ tiers rules (Cli.programmatic a) ≫= tier_issues py present →
               type i = lit "invalid" ∨ type i = lit "missing") as Htypes.
  { intros i Hi. by destruct (elem_of_tiers_issues py _ _ _ _ Hi). }
  split; [by apply errors_of_issues|by apply warnings_of_errors].
Qed.

(** X12.  With [--json], [main] prints one dictionary: its [errors] are
    all the issues of the call, its [warnings] are empty, its
    [present_parameters] are those of the call, and [valid] is true exactly
    when the call returned no issue. *)
Theorem X12_main_json (py : Env) (a : Cli.args) :
  Cli.json a = true →
  ∃ present issues,
    validate_vast_request py (Cli.vast_request a)
      (Cli.choice_name (Cli.implementation_type a))
      (Cli.programmatic a) (Cli.decode a)
    = Some (present, issues)
    ∧ Cli.main py a
      = Some [Cli.print_json
                {| Cli.valid := bool_decide (issues = []);
                   Cli.errors := issues;
                   Cli.warnings := [];
                   Cli.present_parameters := present |}].
Proof.
  intros Hjson.
  destruct (main_validate py a) as (present & issues & Hval & Herr & Hwarn).
  exists present, issues. split; [exact Hval|].
  unfold Cli.main.
  rewrite (proj1 (choice_known (Cli.implementation_type a))), Hval, Hjson.
  by rewrite Herr, Hwarn.
Qed.

Lemma X12_main_json_witness :
  ∃ present issues,
    validate_vast_request ascii_env (lit "env=vp") (lit "doh") true false
    = Some (present, issues)
    ∧ Cli.main ascii_env
        {| Cli.vast_request := lit "env=vp"; Cli.implementation_type := Cli.doh;
           Cli.programmatic := true; Cli.json := true; Cli.decode := false;
           Cli.quiet := false |}
      = Some [Cli.print_json
                {| Cli.valid := bool_decide (issues = []);
                   Cli.errors := issues;
                   Cli.warnings := [];
                   Cli.present_parameters := present |}].
Proof.
  apply (X12_main_json ascii_env
           {| Cli.vast_request := lit "env=vp"; Cli.implementation_type := Cli.doh;
              Cli.programmatic := true; Cli.json := true; Cli.decode := false;
              Cli.quiet := false |}).
  reflexivity.
Defined.

(** X13.  Without [--json], [main] prints: unless quiet, the three lines
    of the results header; then, if the call returned issues, the errors
    header and three lines for each issue in order; then, if it returned
    none and unless quiet, "No errors found.".  It never prints a warnings
    section, and a quiet run without issues prints nothing. *)
Theorem X13_main_text (py : Env) (a : Cli.args) :
  Cli.json a = false →
  ∃ present issues,
    validate_vast_request py (Cli.vast_request a)
      (Cli.choice_name (Cli.implementation_type a))
      (Cli.programmatic a) (Cli.decode a)
    = Some (present, issues)
    ∧ Cli.main py a
      = Some (
          (if Cli.quiet a then []
           else [Cli.print (10 :: lit "--- Validation Results ---");
                 Cli.print (lit "Implementation Type: "
                            ++ Cli.choice_name (Cli.implementation_type a));
                 Cli.print (lit "Present Parameters: "
                            ++ match join (lit ", ")
                                       (Cli.present_order (Cli.vast_request a)) with
                               | [] => lit "None"
                               | joined => joined
                               end)])
          ++ match issues with
             | [] => if Cli.quiet a then [] else [Cli.print (lit "No errors found.")]
             | _ :: _ =>
               Cli.print (10 :: lit "--- Errors ---") :: (issues ≫= Cli.error_lines)
             end)
    ∧ (Cli.quiet a = true → issues = [] → Cli.main py a = Some []).
Proof.
  intros Hjson.
  destruct (main_validate py a) as (present & issues & Hval & Herr & Hwarn).
  exists present, issues. split; [exact Hval|].
  assert (Cli.main py a
          = Some (
              (if Cli.quiet a then []
               else [Cli.print (10 :: lit "--- Validation Results ---");
                     Cli.print (lit "Implementation Type: "
                                ++ Cli.choice_name (Cli.implementation_type a));
                     Cli.print (lit "Present Parameters: "
                                ++ match join (lit ", ")
                                           (Cli.present_order (Cli.vast_request a)) with
                                   | [] => lit "None"
                                   | joined => joined
                                   end)])
              ++ match issues with
                 | [] => if Cli.quiet a then []
                         else [Cli.print (lit "No errors found.")]
                 | _ :: _ =>
                   Cli.print (10 :: lit "--- Errors ---")
                   :: (issues ≫= Cli.error_lines)
                 end)) as Hmain.
  { unfold Cli.main.
    rewrite (proj1 (choice_known (Cli.implementation_type a))), Hval, Hjson.
    rewrite Herr, Hwarn.
    destruct (Cli.quiet a), issues as [|i l]; cbn [negb andb app];
      rewrite ?bool_decide_true, ?bool_decide_false by done;
      cbn [negb andb app]; by rewrite ?app_nil_r. }
  split; [exact Hmain|].
  intros Hq ->. by rewrite Hmain, Hq.
Qed.

Lemma X13_main_text_witness :
  ∃ present issues,
    validate_vast_request ascii_env (lit "env=vp") (lit "doh") false false
    = Some (present, issues)
    ∧ Cli.main ascii_env
        {| Cli.vast_request := lit "env=vp"; Cli.implementation_type := Cli.doh;
           Cli.programmatic := false; Cli.json := false; Cli.decode := false;
           Cli.quiet := true |}
      = Some ([] ++ match issues with
                    | [] => []
                    | _ :: _ =>
                      Cli.print (10 :: lit "--- Errors ---")
                      :: (issues ≫= Cli.error_lines)
                    end)
    ∧ (true = true → issues = [] →
       Cli.main ascii_env
         {| Cli.vast_request := lit "env=vp"; Cli.implementation_type := Cli.doh;
            Cli.programmatic := false; Cli.json := false; Cli.decode := false;
            Cli.quiet := true |} = Some []).
Proof.
  apply (X13_main_text ascii_env
           {| Cli.vast_request := lit "env=vp"; Cli.implementation_type := Cli.doh;
              Cli.programmatic := false; Cli.json := false; Cli.decode := false;
              Cli.quiet := true |}).
  reflexivity.
Defined.

(** The keys gathered so far stay in place, without repetition, and the
    names of the matches join them. *)
Lemma keys_after_spec (keys : list str) (matches : list (str * str)) :
  NoDup keys →
  NoDup (Cli.keys_after keys matches)
  ∧ (∀ name, name ∈ Cli.keys_after keys matches ↔
             name ∈ keys ∨ name ∈ matches.*1)
  ∧ keys `prefix_of` Cli.keys_after keys matches.
Proof.
  revert keys. induction matches as [|[n v] l IH]; intros keys Hnd.
  - cbn. split; [done|]. split; [|done].
    intros name. rewrite elem_of_nil. tauto.
  - cbn [Cli.keys_after]. case_bool_decide as Hn.
    + destruct (IH keys Hnd) as (H1 & H2 & H3). split; [done|]. split; [|done].
      intros name. rewrite H2, fmap_cons, elem_of_cons. cbn [fst].
      split; [tauto|]. intros [?|[->|?]]; tauto.
    + assert (NoDup (keys ++ [n])) as Hnd'.
      { apply NoDup_app. repeat split; [done| |apply NoDup_singleton].
        intros x Hx ->%list_elem_of_singleton. done. }
      destruct (IH (keys ++ [n]) Hnd') as (H1 & H2 & H3).
      split; [done|]. split.
      * intros name. rewrite H2, fmap_cons, elem_of_cons, elem_of_app,
          list_elem_of_singleton. cbn [fst]. tauto.
      * etrans; [|exact H3]. by apply prefix_app_r.
Qed.

(** X14.  The "Present Parameters" line of [main] names exactly the present
    parameters of the call, each once. *)
Theorem X14_present_order (py : Env) (a : Cli.args) :
  ∃ present issues,
    validate_vast_request py (Cli.vast_request a)
      (Cli.choice_name (Cli.implementation_type a))
      (Cli.programmatic a) (Cli.decode a)
    = Some (present, issues)
    ∧ NoDup (Cli.present_order (Cli.vast_request a))
    ∧ (∀ name, name ∈ Cli.present_order (Cli.vast_request a) ↔
               name ∈ dom present).
Proof.
  destruct (choice_known (Cli.implementation_type a)) as [_ [rules Hc]].
  destruct (validate_known py (Cli.vast_request a) _ rules
              (Cli.programmatic a) (Cli.decode a) Hc)
    as (present & _ & Hdom & Hval).
  eexists _, _. split; [exact Hval|].
  destruct (keys_after_spec [] (finditer_params (Cli.vast_request a)))
    as (H1 & H2 & _); [constructor|].
  split; [exact H1|]. intros name. unfold Cli.present_order.
  rewrite H2, Hdom, elem_of_list_to_set, elem_of_nil. tauto.
Qed.

(** *** The registry *)

Lemma known_context c rules :
  dict_get param_rules c = Some rules →
  (c, rules) ∈ [(lit "web", web_rules); (lit "app", app_rules);
                (lit "ctv", ctv_rules); (lit "audio", audio_rules);
                (lit "doh", doh_rules)].
Proof. apply dict_get_Some_elem. Qed.

Local Ltac known_cases H :=
  apply known_context in H;
  rewrite !elem_of_cons, elem_of_nil in H;
  destruct H as [H|[H|[H|[H|[H|[]]]]]]; injection H as -> ->.

(** X15.  The registry is well formed: within an implementation type no
    parameter name is declared twice, in one tier or across tiers; every
    declared name is a non-empty run of letters, digits and underscores, so
    a request can supply it; and every enum rule allows at least one value
    and never the empty one. *)
Theorem X15_registry_well_formed (c : str) (rules : type_rules) :
  dict_get param_rules c = Some rules →
  NoDup (declared rules) ∧ Forall well_formed_item (all_items rules).
Proof.
  intros Hc. split; [by eapply registry_nodup|].
  known_cases Hc;
    cbv [all_items required programmatic_required programmatic_recommended
         web_rules app_rules ctv_rules audio_rules doh_rules app];
    repeat (apply Forall_cons_2;
            [split; [|split];
               [intros H; vm_compute in H; discriminate H
               |apply (bool_decide_unpack _); vm_compute; reflexivity
               |cbn [snd];
                first [exact I
                      |apply (bool_decide_unpack _); vm_compute; reflexivity]]|]);
    apply Forall_nil_2.
Qed.

Lemma X15_registry_well_formed_witness :
  NoDup (declared ctv_rules) ∧ Forall well_formed_item (all_items ctv_rules).
Proof.
  apply (X15_registry_well_formed (lit "ctv") ctv_rules). reflexivity.
Defined.

(** X16.  Every implementation type can be satisfied, with and without the
    programmatic flag: the request that gives each parameter of the
    evaluated tiers a sample value of its type (1, http://example.com, the
    first allowed value, 640x480, 0, x) gets no issue. *)
Theorem X16_sample_request_valid (py : Env) (c : str) (rules : type_rules)
    (is_programmatic : bool) :
  dict_get param_rules c = Some rules →
  snd <$> validate_vast_request py (sample_request rules is_programmatic) c
            is_programmatic false
  = Some [].
Proof.
  intros Hc. known_cases Hc; destruct is_programmatic; vm_compute; reflexivity.
Qed.

Lemma X16_sample_request_valid_witness :
  snd <$> validate_vast_request ascii_env (sample_request audio_rules true)
            (lit "audio") true false
  = Some [].
Proof.
  apply (X16_sample_request_valid ascii_env (lit "audio") audio_rules true).
  reflexivity.
Defined.

(** *** Digit strings *)

Lemma digit_tail_digits (py : Env) (s : str) :
  Forall (λ c, is_ascii_digit c = true) s → digit_tail py s.
Proof.
  induction 1 as [|c s Hc Hs IH]; [constructor|].
  apply tail_digit; [|done]. unfold int_digit, is_ascii.
  apply ascii_digit_bounds in Hc as Hb.
  assert ((c <? 128) = true) as -> by (apply N.ltb_lt; lia). done.
Qed.

Lemma count_digits_le (py : Env) (s : str) :
  (N.to_nat (count_digits py s) ≤ length s)%nat.
Proof.
  unfold count_digits. rewrite Nat2N.id.
  induction s as [|c s IH]; [done|]. cbn. destruct (int_digit py c); cbn; lia.
Qed.

(** X17.  A non-empty string of ASCII digits passes the integer rule under
    every interpreter setting when it has at most 640 digits, leading zeros
    included, and at any length when the interpreter's digit limit is
    switched off. *)
Theorem X17_digit_strings_pass (py : Env) (p value : str) (errors : list issue) :
  value ≠ [] → Forall (λ c, is_ascii_digit c = true) value →
  (length value ≤ 640)%nat ∨ int_max_str_digits py = 0 →
  validate_param py p Int value errors = errors.
Proof.
  intros Hne Hdig Hlen. unfold validate_param. rewrite bool_decide_false by done.
  assert (is_Some (int py value)) as [z ->]; [|done].
  apply int_is_Some_literal.
  destruct value as [|d tail]; [done|].
  apply Forall_cons in Hdig as [Hd Htail].
  exists [], [], d, tail, []. rewrite app_nil_r.
  repeat split; try done; try by constructor.
  - unfold int_digit, is_ascii. apply ascii_digit_bounds in Hd as Hb.
    assert ((d <? 128) = true) as -> by (apply N.ltb_lt; lia). done.
  - by apply digit_tail_digits.
  - unfold exceeds_max_str_digits, max_str_digits_threshold.
    pose proof (count_digits_le py tail) as Hcount. cbn [length] in Hlen.
    destruct Hlen as [Hlen| ->].
    + assert ((640 <? 1 + count_digits py tail) = false) as ->; [|done].
      apply N.ltb_ge. lia.
    + by rewrite andb_false_r.
Qed.

Lemma X17_digit_strings_pass_witness :
  validate_param ascii_env (lit "correlator") Int (lit "0007") [] = [].
Proof.
  apply (X17_digit_strings_pass ascii_env (lit "correlator") (lit "0007") []).
  - discriminate.
  - repeat constructor.
  - left. vm_compute. lia.
Defined.

(** *** One parameter at a time *)

(** X18.  The issues that name a present parameter of an evaluated tier
    are exactly those of the check of its own value against its own rule:
    no other parameter and no other part of the request adds to them or
    takes from them.  In particular an invalid value gets one "invalid"
    issue and a valid one none. *)
Theorem X18_present_checked_alone (py : Env) (raw c : str) (rules : type_rules)
    (is_programmatic decode_params : bool) (p : str) (r : rule) :
  dict_get param_rules c = Some rules →
  dict_get (active_items rules is_programmatic) p = Some r →
  ∃ present issues,
    validate_vast_request py raw c is_programmatic decode_params
    = Some (present, issues)
    ∧ ∀ value, present !! p = Some value →
        issues_for p issues = validate_param py p r value []
        ∧ (length (issues_for p issues) ≤ 1)%nat
        ∧ ∀ i, i ∈ issues_for p issues → type i = lit "invalid".
Proof.
  intros Hc Hp.
  pose proof (registry_nodup c rules Hc) as Hnd.
  destruct (declared_nodup_tiers rules Hnd) as (_ & _ & _ & D12 & D13 & D23).
  destruct (validate_known py raw c rules is_programmatic decode_params Hc)
    as (present & _ & _ & Hval).
  eexists _, _. split; [exact Hval|]. intros value Hvalue.
  assert (issues_for p (tiers rules is_programmatic ≫= tier_issues py present)
          = validate_param py p r value []) as ->.
  { rewrite (issues_for_tiers py p present rules is_programmatic Hnd).
    unfold active_items in Hp. rewrite !dict_get_app in Hp.
    destruct (dict_get (required rules) p) as [r1|] eqn:H1.
    { injection Hp as ->. cbv beta iota. by rewrite param_issues_eq, Hvalue. }
    destruct is_programmatic.
    - destruct (dict_get (programmatic_required rules) p) as [r2|] eqn:H2.
      { injection Hp as ->. cbv beta iota. by rewrite param_issues_eq, Hvalue. }
      rewrite Hp. cbv beta iota. by rewrite param_issues_eq, Hvalue.
    - cbn [dict_get] in Hp.
      assert (dict_get (programmatic_required rules) p = None) as ->.
      { destruct (dict_get (programmatic_required rules) p) eqn:E; [|done].
        exfalso. apply dict_get_Some_key in E, Hp. by apply (D23 p E). }
      rewrite Hp. cbv beta iota. by rewrite param_issues_eq, Hvalue. }
  split; [done|]. split.
  - destruct (validate_param_cases py p r value) as [->|[i ->]]; cbn; lia.
  - intros i Hi. by destruct (elem_of_validate_param py _ _ _ _ Hi).
Qed.

Lemma X18_present_checked_alone_witness :
  ∃ present issues,
    validate_vast_request ascii_env (lit "sz=big&vpa=2&env=vp") (lit "web")
      false false
    = Some (present, issues)
    ∧ ∀ value, present !! lit "sz" = Some value →
        issues_for (lit "sz") issues
        = validate_param ascii_env (lit "sz") Size value []
        ∧ (length (issues_for (lit "sz") issues) ≤ 1)%nat
        ∧ ∀ i, i ∈ issues_for (lit "sz") issues → type i = lit "invalid".
Proof.
  apply (X18_present_checked_alone ascii_env (lit "sz=big&vpa=2&env=vp")
           (lit "web") web_rules false false (lit "sz") Size).
  - reflexivity.
  - reflexivity.
Defined.

(** X19.  [validate_param] only appends: the errors gathered before stay as
    they are, in order, and at most one issue follows them, of type
    "invalid" and naming the parameter checked. *)
Theorem X19_validate_param_appends (py : Env) (p : str) (r : rule)
    (value : str) (errors : list issue) :
  ∃ added,
    validate_param py p r value errors = errors ++ added
    ∧ (length added ≤ 1)%nat
    ∧ ∀ i, i ∈ added → parameter i = p ∧ type i = lit "invalid".
Proof.
  exists (validate_param py p r value []).
  split; [exact (validate_param_app py p r value errors)|]. split.
  - destruct (validate_param_cases py p r value) as [->|[i ->]]; cbn; lia.
  - intros i. apply (elem_of_validate_param py).
Qed.

(** *** What the present parameters hold *)

Lemma store_params_raw_lookup (l : list (str * str)) (m m' : gmap str str)
    (name value : str) :
  store_params false l m = Some m' → m' !! name = Some value →
  m !! name = Some value ∨ (name, value) ∈ l.
Proof.
  revert m. induction l as [|[n v] l IH]; intros m.
  - intros [= <-]. by left.
  - cbn [store_params]. cbn. intros Hst Hl.
    destruct (IH _ Hst Hl) as [Hm|Hin]; [|right; by right].
    destruct (decide (n = name)) as [->|Hne].
    + rewrite lookup_insert_eq in Hm. injection Hm as ->. right. left.
    + rewrite lookup_insert_ne in Hm by done. by left.
Qed.

(** X20.  Every name among the present parameters is a non-empty run of
    letters, digits and underscores; and when decoding is off, no stored
    value holds an ampersand. *)
Theorem X20_present_shape (py : Env) (raw c : str) (rules : type_rules)
    (is_programmatic decode_params : bool) :
  dict_get param_rules c = Some rules →
  ∃ present issues,
    validate_vast_request py raw c is_programmatic decode_params
    = Some (present, issues)
    ∧ ∀ name value, present !! name = Some value →
        name ≠ [] ∧ Forall (λ ch, is_name_char ch = true) name
        ∧ (decode_params = false → 38 ∉ value).
Proof.
  intros Hc.
  destruct (validate_known py raw c rules is_programmatic decode_params Hc)
    as (present & Hstore & Hdom & Hval).
  eexists _, _. split; [exact Hval|]. intros name value Hlookup.
  assert (name ∈ (finditer_params raw).*1) as Hname.
  { assert (name ∈ dom present) as Hd by (apply elem_of_dom; by eexists).
    rewrite Hdom in Hd. by apply elem_of_list_to_set in Hd. }
  apply list_elem_of_fmap in Hname as ([n v] & -> & Hin). cbn [fst] in *.
  destruct (elem_of_finditer_params raw n v Hin) as (H1 & H2 & _).
  split; [done|]. split; [done|]. intros ->.
  destruct (store_params_raw_lookup _ _ _ n value Hstore Hlookup)
    as [Hempty|Hin']; [by rewrite lookup_empty in Hempty|].
  destruct (elem_of_finditer_params raw n value Hin') as (_ & _ & Hv & _).
  rewrite Forall_forall in Hv. intros Hamp. by apply (Hv 38).
Qed.

Lemma X20_present_shape_witness :
  ∃ present issues,
    validate_vast_request ascii_env (lit "a-b=1&&c=%26") (lit "web") false false
    = Some (present, issues)
    ∧ ∀ name value, present !! name = Some value →
        name ≠ [] ∧ Forall (λ ch, is_name_char ch = true) name
        ∧ (false = false → 38 ∉ value).
Proof.
  apply (X20_present_shape ascii_env (lit "a-b=1&&c=%26") (lit "web")
           web_rules false false).
  reflexivity.
Defined.
